(** * Adversarial-debiasing fine-tuning scripts: a shallow embedding

    The development embeds the pure parts of [run_debiasing.py] (example
    reader, feature encoder, pair truncation, choice selection, accuracy
    count, loss combination) and of [get_gender.py] (the row labelling
    filter) and states the properties of the specification over them.

    Python lists are [list]s, Python integers are [Z], raised exceptions
    are the [Raise] case of [result].  Tensor entries of floating type are
    read as real numbers; integer tensors hold [Z]. *)

From Stdlib Require Import ZArith Reals Lra Lia Ascii String.
From stdpp Require Import base list strings gmap.
From Equations Require Import Equations.

(* ===================================================================== *)
(** ** Exceptions *)
(* ===================================================================== *)

(** The exceptions the embedded code can raise.  A [ValueError] carries
    its message; [AssertionError k] is the failure of the [k]-th [assert]
    of the encoder (counted from 1); [ShapeError] is a tensor operation
    applied at the wrong shape. *)
Inductive exn : Type :=
  | IndexError
  | ValueError (msg : string)
  | AssertionError (k : nat)
  | StopIteration
  | ShapeError.

(** The configuration error [read_swag_examples] raises itself. *)
Definition missing_label_column : exn :=
  ValueError "For training, the input file must contain a label column.".

(** The error of the built-in [int] on a string that is no integer. *)
Definition invalid_literal : exn :=
  ValueError "invalid literal for int() with base 10".

(** The error of [.item()] on a tensor with more than one entry. *)
Definition not_a_scalar : exn :=
  ValueError "only one element tensors can be converted to Python scalars".

Inductive result (A : Type) : Type :=
  | Ok (a : A)
  | Raise (e : exn).
Arguments Ok {A} a.
Arguments Raise {A} e.

#[global] Instance result_ret : MRet result := fun _ a => Ok a.
#[global] Instance result_bind : MBind result := fun _ _ f m =>
  match m with
  | Ok a => f a
  | Raise e => Raise e
  end.

(** [for x in xs: body] over a fallible body, collecting the results in
    order and stopping at the first exception. *)
Fixpoint rmap {A B} (f : A -> result B) (xs : list A) : result (list B) :=
  match xs with
  | [] => Ok []
  | x :: xs' => y ← f x; ys ← rmap f xs'; Ok (y :: ys)
  end.

(** [l[i]] for a non-negative constant index. *)
Definition index {A} (l : list A) (i : nat) : result A :=
  match l !! i with
  | Some x => Ok x
  | None => Raise IndexError
  end.

(** [l.pop()]: the list without its last element; [IndexError] on [[]]. *)
Definition pop {A} (l : list A) : result (list A) :=
  match l with
  | [] => Raise IndexError
  | _ :: _ => Ok (removelast l)
  end.

(** [[x] * n]: the empty list when [n] is not positive. *)
Definition repeat_z {A} (x : A) (n : Z) : list A := replicate (Z.to_nat n) x.

Definition len {A} (l : list A) : Z := Z.of_nat (length l).

(* ===================================================================== *)
(** ** [_truncate_seq_pair] *)
(* ===================================================================== *)

(** One pass through the body of the [while True] loop. *)
Inductive iteration (A : Type) : Type :=
  | Break
  | Popped (tokens_a tokens_b : list A)
  | Failed (e : exn).
Arguments Break {A}.
Arguments Popped {A} tokens_a tokens_b.
Arguments Failed {A} e.

Definition truncate_iter {A} (tokens_a tokens_b : list A) (max_length : Z)
  : iteration A :=
  let total_length := (len tokens_a + len tokens_b)%Z in
  if (total_length <=? max_length)%Z then Break
  else if (len tokens_a >? len tokens_b)%Z then
    match pop tokens_a with
    | Ok a' => Popped a' tokens_b
    | Raise e => Failed e
    end
  else
    match pop tokens_b with
    | Ok b' => Popped tokens_a b'
    | Raise e => Failed e
    end.

Lemma pop_length {A} (l l' : list A) :
  pop l = Ok l' -> S (length l') = length l.
Proof.
  destruct l as [|x l]; [discriminate|].
  intros [= <-]. revert x. induction l as [|y l IH]; intros x; [reflexivity|].
  cbn [removelast length] in *. f_equal. apply (IH y).
Qed.

Lemma truncate_iter_decreases {A} (a b a' b' : list A) m :
  truncate_iter a b m = Popped a' b' ->
  S (length a' + length b') = length a + length b.
Proof.
  unfold truncate_iter.
  destruct (_ <=? _)%Z; [discriminate|].
  destruct (_ >? _)%Z.
  - destruct (pop a) as [a1|] eqn:E; [|discriminate].
    intros [= <- <-]. apply pop_length in E. lia.
  - destruct (pop b) as [b1|] eqn:E; [|discriminate].
    intros [= <- <-]. apply pop_length in E. lia.
Qed.

Definition inspect {A} (a : A) : {b : A | a = b} := exist _ a eq_refl.

Equations? _truncate_seq_pair {A} (tokens_a tokens_b : list A) (max_length : Z)
  : result (list A * list A) by wf (length tokens_a + length tokens_b) lt :=
  _truncate_seq_pair tokens_a tokens_b max_length
    with inspect (truncate_iter tokens_a tokens_b max_length) := {
    | exist _ Break _ => Ok (tokens_a, tokens_b)
    | exist _ (Popped a' b') E => _truncate_seq_pair a' b' max_length
    | exist _ (Failed e) _ => Raise e }.
Proof. apply truncate_iter_decreases in E. lia. Qed.

(* ===================================================================== *)
(** ** [SwagExample] and [read_swag_examples] *)
(* ===================================================================== *)

Record SwagExample : Type := mkSwagExample {
  swag_id : string;
  context_sentence : string;
  start_ending : string;
  ending_0 : string;
  ending_1 : string;
  ending_2 : string;
  ending_3 : string;
  label : option Z;
  protected_attr : option Z
}.

(** [self.endings = [ending_0, ending_1, ending_2, ending_3]]. *)
Definition endings (e : SwagExample) : list string :=
  [ending_0 e; ending_1 e; ending_2 e; ending_3 e].

Section reader.
(** Python's built-in [int] on a string: [None] stands for the
    [ValueError] of an invalid literal. *)
Variable int : string -> option Z.

Definition py_int (cell : string) : result Z :=
  match int cell with
  | Some z => Ok z
  | None => Raise invalid_literal
  end.

(** The [SwagExample(...)] call of the comprehension, its arguments
    evaluated left to right. *)
Definition example_of_line (is_training : bool) (line : list string)
  : result SwagExample :=
  id ← index line 2;
  ctx ← index line 4;
  se ← index line 5;
  e0 ← index line 7;
  e1 ← index line 8;
  e2 ← index line 9;
  e3 ← index line 10;
  lbl ← (if is_training
         then c ← index line 11; z ← py_int c; Ok (Some z)
         else Ok None);
  pa ← (if is_training
        then c ← index line 12; z ← py_int c; Ok (Some z)
        else Ok None);
  Ok (mkSwagExample id ctx se e0 e1 e2 e3 lbl pa).

(** The list comprehension over [lines[1:]].  The first component counts
    the [SwagExample] objects constructed, starting from [n]. *)
Fixpoint construct_examples (is_training : bool) (lines : list (list string))
    (n : nat) : nat * result (list SwagExample) :=
  match lines with
  | [] => (n, Ok [])
  | line :: rest =>
      match example_of_line is_training line with
      | Raise e => (n, Raise e)
      | Ok ex =>
          let '(n', r) := construct_examples is_training rest (S n) in
          (n', exs ← r; Ok (ex :: exs))
      end
  end.

(** [read_swag_examples] on the rows [csv.reader] yields for the file.
    The result is paired with the number of [SwagExample] objects that
    were constructed when the function returned or raised. *)
Definition read_swag_examples (lines : list (list string)) (is_training : bool)
  : nat * result (list SwagExample) :=
  let no_label : result bool :=
    if is_training
    then header ← index lines 0; Ok (bool_decide ("label" ∉ header))
    else Ok false in
  match no_label with
  | Raise e => (0, Raise e)
  | Ok true => (0, Raise missing_label_column)
  | Ok false => construct_examples is_training (drop 1 lines) 0
  end.
End reader.

(* ===================================================================== *)
(** ** [convert_examples_to_features] *)
(* ===================================================================== *)

(** The tokenizer object handed to the encoder: [tokenize] splits a text
    into word pieces and [convert_tokens_to_ids] looks every token up in
    the vocabulary, one id per token. *)
Record tokenizer : Type := mkTokenizer {
  tokenize : string -> list string;
  vocab : string -> Z
}.

Definition convert_tokens_to_ids (tk : tokenizer) (tokens : list string)
  : list Z := map (vocab tk) tokens.

(** The 7-tuple appended to [choices_features]. *)
Record choice_tuple : Type := mkChoice {
  c_tokens : list string;
  c_input_ids : list Z;
  c_input_mask : list Z;
  c_segment_ids : list Z;
  c_vp_tokens : list string;
  c_vp_input_ids : list Z;
  c_vp_input_mask : list Z
}.

(** The dictionary [InputFeatures.__init__] keeps for each choice. *)
Record choice_features : Type := mkChoiceFeatures {
  input_ids : list Z;
  input_mask : list Z;
  segment_ids : list Z;
  vp_input_ids : list Z;
  vp_input_mask : list Z
}.

Record InputFeatures : Type := mkInputFeatures {
  example_id : string;
  choices_features : list choice_features;
  f_label : option Z;
  f_protected_attr : option Z;
  f_endings : list string
}.

Definition new_InputFeatures (example_id : string)
    (choices : list choice_tuple) (label protected_attr : option Z)
    (endings : list string) : InputFeatures :=
  mkInputFeatures example_id
    (map (fun c => mkChoiceFeatures (c_input_ids c) (c_input_mask c)
                     (c_segment_ids c) (c_vp_input_ids c) (c_vp_input_mask c))
         choices)
    label protected_attr endings.

(** [assert cond], the [k]-th of the encoder. *)
Definition assert (k : nat) (cond : bool) : result unit :=
  if cond then Ok () else Raise (AssertionError k).

(** [int(max_seq_length / 2)]: true division, then truncation toward
    zero (exact at the magnitude of a sequence length). *)
Definition half (max_seq_length : Z) : Z := Z.quot max_seq_length 2.

(** Body of the inner loop, for one ending. *)
Definition encode_choice (tk : tokenizer) (max_seq_length : Z)
    (context_tokens start_ending_tokens : list string) (ending : string)
  : result choice_tuple :=
  let context_tokens_choice := context_tokens in
  let vp_token_ := tokenize tk ending in
  let ending_tokens := start_ending_tokens ++ vp_token_ in
  '(context_tokens_choice, ending_tokens) ←
    _truncate_seq_pair context_tokens_choice ending_tokens (max_seq_length - 3);
  let vp_tokens := ["[CLS]"] ++ vp_token_ ++ ["[SEP]"] in
  let tokens := ["[CLS]"] ++ context_tokens_choice ++ ["[SEP]"]
                  ++ ending_tokens ++ ["[SEP]"] in
  let segment_ids := repeat_z 0%Z (len context_tokens_choice + 2)
                       ++ repeat_z 1%Z (len ending_tokens + 1) in
  let input_ids := convert_tokens_to_ids tk tokens in
  let input_mask := repeat_z 1%Z (len input_ids) in
  let vp_input_ids := convert_tokens_to_ids tk vp_tokens in
  let vp_input_mask := repeat_z 1%Z (len vp_input_ids) in
  let padding := repeat_z 0%Z (max_seq_length - len input_ids) in
  let input_ids := input_ids ++ padding in
  let input_mask := input_mask ++ padding in
  let segment_ids := segment_ids ++ padding in
  let padding := repeat_z 0%Z (half max_seq_length - len vp_input_ids) in
  let vp_input_ids := vp_input_ids ++ padding in
  let vp_input_mask := vp_input_mask ++ padding in
  _ ← assert 1 (len input_ids =? max_seq_length)%Z;
  _ ← assert 2 (len input_mask =? max_seq_length)%Z;
  _ ← assert 3 (len segment_ids =? max_seq_length)%Z;
  _ ← assert 4 (len vp_input_ids =? half max_seq_length)%Z;
  _ ← assert 5 (len vp_input_mask =? half max_seq_length)%Z;
  Ok (mkChoice tokens input_ids input_mask segment_ids
        vp_tokens vp_input_ids vp_input_mask).

(** Body of the outer loop, for one example (logging left out). *)
Definition encode_example (tk : tokenizer) (max_seq_length : Z)
    (example : SwagExample) : result InputFeatures :=
  let context_tokens := tokenize tk (context_sentence example) in
  let start_ending_tokens := tokenize tk (start_ending example) in
  choices ← rmap (encode_choice tk max_seq_length context_tokens
                    start_ending_tokens) (endings example);
  Ok (new_InputFeatures (swag_id example) choices (label example)
        (protected_attr example) (endings example)).

Definition convert_examples_to_features (examples : list SwagExample)
    (tk : tokenizer) (max_seq_length : Z) (is_training : bool)
  : result (list InputFeatures) :=
  rmap (encode_example tk max_seq_length) examples.

(* ===================================================================== *)
(** ** Tensor operations used by the training and evaluation loops *)
(* ===================================================================== *)

(** A tensor of shape [B] is a list, of shape [B, C] a list of rows, of
    shape [B, C, L] a list of lists of rows.  Index tensors hold [nat]. *)

(** Maximum of one row with the position of its first occurrence; a
    reduction over an empty dimension is rejected. *)
Fixpoint row_max (row : list R) : result (R * nat) :=
  match row with
  | [] => Raise ShapeError
  | x :: rest =>
      match row_max rest with
      | Raise _ => Ok (x, 0)
      | Ok (m, i) => if Rlt_dec x m then Ok (m, S i) else Ok (x, 0)
      end
  end.

(** [torch.max(t, dim=1)]: values and indices. *)
Definition max_dim1 (t : list (list R)) : result (list R * list nat) :=
  rows ← rmap row_max t; Ok (map fst rows, map snd rows).

(** [torch.argmax(t, dim=1)]. *)
Definition argmax_dim1 (t : list (list R)) : result (list nat) :=
  rows ← rmap row_max t; Ok (map snd rows).

Definition sum_R (v : list R) : R := foldr Rplus 0%R v.

(** [torch.nn.functional.softmax] of a tensor of shape [B]: with no [dim]
    given, a one-dimensional tensor is normalised along dimension 0. *)
Definition softmax (v : list R) : list R :=
  let z := sum_R (map exp v) in map (fun x => (exp x / z)%R) v.

(** [.long()]: conversion to an integer, rounding toward zero. *)
Definition long (r : R) : Z := if Rle_dec 0 r then Zfloor r else Zceil r.

(** [t.size(2)] of a non-empty tensor of shape [B, C, L]. *)
Definition size2 {A} (t : list (list (list A))) : nat :=
  match t with
  | (row :: _) :: _ => length row
  | _ => 0
  end.

(** [p.view(-1, 1).repeat(1, L).view([-1, 1, L])]. *)
Definition expand_index (p : list nat) (L : nat) : list (list (list nat)) :=
  map (fun i => [replicate L i]) p.

(** [torch.gather(input, dim=1, index)]:
    [out[i][j][k] = input[i][index[i][j][k]][k]]. *)
Definition gather_dim1 {A} (input : list (list (list A)))
    (idx : list (list (list nat))) : result (list (list (list A))) :=
  if negb (length input =? length idx) then Raise ShapeError else
  rmap (fun '(inp_i, idx_i) =>
          rmap (fun idx_ij =>
                  rmap (fun '(k, c) => row ← index inp_i c; index row k)
                       (imap pair idx_ij))
               idx_i)
       (zip input idx).

(** [t.view([t.size(0), -1])]. *)
Definition view_rows {A} (t : list (list (list A))) : list (list A) :=
  map (@concat A) t.

(** [torch.cat((a, b), dim=1)] of two matrices. *)
Definition cat_dim1 {A} (a b : list (list A)) : result (list (list A)) :=
  if length a =? length b then Ok (zip_with app a b) else Raise ShapeError.

(** Lines 502-511 of the training loop: from the predictor's logits and the
    batch's VP tensors to the adversary's inputs. *)
Definition train_select (logits : list (list R))
    (vp_input_ids vp_input_mask : list (list (list Z)))
  : result (list (list Z) * list (list Z)) :=
  '(max_prob, predicted_vps) ← max_dim1 logits;
  let max_prob : list (list Z) :=
    map (fun p => [long (100 * p)]) (softmax max_prob) in
  let predicted_vps := expand_index predicted_vps (size2 vp_input_ids) in
  vp_input_ids ← gather_dim1 vp_input_ids predicted_vps;
  let vp_input_ids := view_rows vp_input_ids in
  vp_input_ids ← cat_dim1 max_prob vp_input_ids;
  vp_input_mask ← gather_dim1 vp_input_mask predicted_vps;
  let vp_input_mask := view_rows vp_input_mask in
  vp_input_mask ← cat_dim1 (map (map (fun z => 0 * z + 1)%Z) max_prob)
                    vp_input_mask;
  Ok (vp_input_ids, vp_input_mask).

(** Lines 647-652 of the evaluation loop. *)
Definition eval_select (logits_pred : list (list R))
    (vp_input_ids vp_input_mask : list (list (list Z)))
  : result (list (list Z) * list (list Z)) :=
  predicted_vps ← argmax_dim1 logits_pred;
  let predicted_vps := expand_index predicted_vps (size2 vp_input_ids) in
  vp_input_ids ← gather_dim1 vp_input_ids predicted_vps;
  let vp_input_ids := view_rows vp_input_ids in
  vp_input_mask ← gather_dim1 vp_input_mask predicted_vps;
  let vp_input_mask := view_rows vp_input_mask in
  Ok (vp_input_ids, vp_input_mask).

(** [outputs == labels] on one-dimensional tensors, with broadcasting of
    a one-element operand. *)
Definition eq_broadcast (xs ys : list Z) : result (list bool) :=
  if length xs =? length ys then Ok (zip_with Z.eqb xs ys)
  else match xs, ys with
       | [x], _ => Ok (map (Z.eqb x) ys)
       | _, [y] => Ok (map (fun x => Z.eqb x y) xs)
       | _, _ => Raise ShapeError
       end.

(** [torch.sum] of a boolean tensor. *)
Definition sum_bool (bs : list bool) : Z :=
  foldr (fun (b : bool) acc => ((if b then 1 else 0) + acc)%Z) 0%Z bs.

Definition accuracy (out : list (list R)) (labels : list Z) : result Z :=
  outputs ← argmax_dim1 out;
  eqs ← eq_broadcast (map Z.of_nat outputs) labels;
  Ok (sum_bool eqs).

(* ===================================================================== *)
(** ** The losses of one training step *)
(* ===================================================================== *)

Record args : Type := mkArgs {
  fp16 : bool;
  loss_scale : R;
  gradient_accumulation_steps : Z
}.

Definition alpha : R := 1%R.

(** [t.mean()] and [t.item()] of a loss tensor, given as the list of its
    entries: one entry, or one per replica under [DataParallel]. *)
Definition mean (t : list R) : R := (sum_R t / INR (length t))%R.

Definition item (t : list R) : result R :=
  match t with
  | [x] => Ok x
  | _ => Raise not_a_scalar
  end.

(** What one training step records and backpropagates. *)
Record step_losses : Type := mkStepLosses {
  history_entry : R * R;   (* appended to [training_history] *)
  loss : R;                (* backpropagated for the predictor update *)
  adversary_loss : R       (* backpropagated for the adversary update *)
}.

(** Lines 515-553, from the two models' losses. *)
Definition training_step_losses (a : args) (n_gpu : Z)
    (loss_pred loss_adv : list R) : result step_losses :=
  loss_pred ← (if (n_gpu >? 1)%Z then Ok (mean loss_pred) else item loss_pred);
  loss_adv ← (if (n_gpu >? 1)%Z then Ok (mean loss_adv) else item loss_adv);
  let scaled :=
    fp16 a && (if Req_dec_T (loss_scale a) 1%R then false else true) in
  let loss_pred := if scaled then (loss_pred * loss_scale a)%R else loss_pred in
  let loss_adv := if scaled then (loss_adv * loss_scale a)%R else loss_adv in
  let acc := (gradient_accumulation_steps a >? 1)%Z in
  let loss_pred :=
    if acc then (loss_pred / IZR (gradient_accumulation_steps a))%R
    else loss_pred in
  let loss_adv :=
    if acc then (loss_adv / IZR (gradient_accumulation_steps a))%R
    else loss_adv in
  let loss := (loss_pred - alpha * loss_adv)%R in
  Ok (mkStepLosses (loss_pred, loss_adv) loss loss_adv).

(* ===================================================================== *)
(** ** [get_gender.py] *)
(* ===================================================================== *)

Definition girls : gset string :=
  list_to_set ["she"; "She"; "SHE"; "her"; "Her"; "HER"; "woman"; "Woman";
               "women"; "Women"; "WOMAN"; "girl"; "girls"; "lady"; "ladys"].

Definition boys : gset string :=
  list_to_set ["he"; "He"; "HE"; "his"; "His"; "HIS"; "man"; "Man"; "men";
               "Men"; "MAN"; "boy"; "boys"].

(** [s.split(sep)] for a one-character separator: every occurrence of
    [sep] ends a field, so the result is never empty and may hold empty
    strings. *)
Fixpoint split (sep : ascii) (s : string) : list string :=
  match s with
  | EmptyString => [EmptyString]
  | String c rest =>
      if Ascii.eqb c sep then EmptyString :: split sep rest
      else match split sep rest with
           | w :: ws => String c w :: ws
           | [] => [String c EmptyString]
           end
  end.

(** A value handed to [csv.writer.writerow]: a string or an integer. *)
Inductive cell : Type :=
  | Str (s : string)
  | Int (z : Z).

#[global] Instance cell_eq_dec : EqDecision cell.
Proof. solve_decision. Defined.

(** One pass through the body of [for n in np]. *)
Definition update_label (label : cell) (n : string) : cell :=
  if bool_decide (n ∈ girls) then Int 1
  else if bool_decide (n ∈ boys) then Int 0
  else label.

(** The value of [label] after the inner loop over [np.split(" ")]. *)
Definition gender_label (np : string) : cell :=
  foldl update_label (Str "") (split " " np).

(** Body of the loop over the data rows: the row written, if any. *)
Definition label_row (row : list string) : result (option (list cell)) :=
  np ← index row 5;
  let label := gender_label np in
  if bool_decide (label ≠ Str "")
  then Ok (Some (map Str row ++ [label]))
  else Ok None.

(** The loop over the data rows: the rows written, in order, and the
    exception that ended the loop, if one did. *)
Fixpoint label_rows (rows : list (list string))
  : list (list cell) * option exn :=
  match rows with
  | [] => ([], None)
  | row :: rest =>
      match label_row row with
      | Raise e => ([], Some e)
      | Ok written =>
          let '(out, e) := label_rows rest in
          (option_list written ++ out, e)
      end
  end.

(** The script, from the rows of the input file to the rows written to
    the output file. *)
Definition get_gender (file : list (list string))
  : list (list cell) * option exn :=
  match file with
  | [] => ([], Some StopIteration)
  | row :: rest =>
      let row_ := map Str row ++ [Str "gender"] in
      let '(out, e) := label_rows rest in
      (row_ :: out, e)
  end.

(* ===================================================================== *)
(** ** [select_field] *)
(* ===================================================================== *)

(** [choice[field]] on the dictionary kept for a choice; [None] stands
    for the [KeyError] of a key the dictionary does not have. *)
Definition choice_get (choice : choice_features) (field : string)
  : option (list Z) :=
  if String.eqb field "input_ids" then Some (input_ids choice)
  else if String.eqb field "input_mask" then Some (input_mask choice)
  else if String.eqb field "segment_ids" then Some (segment_ids choice)
  else if String.eqb field "vp_input_ids" then Some (vp_input_ids choice)
  else if String.eqb field "vp_input_mask" then Some (vp_input_mask choice)
  else None.

Definition select_field (features : list InputFeatures) (field : string)
  : option (list (list (list Z))) :=
  mapM (fun feature =>
          mapM (fun choice => choice_get choice field)
               (choices_features feature))
       features.

(* ===================================================================== *)
(** ** The evaluation loop *)
(* ===================================================================== *)

(** One batch of the evaluation [DataLoader]. *)
Record eval_batch : Type := mkEvalBatch {
  b_input_ids : list (list (list Z));
  b_input_mask : list (list (list Z));
  b_segment_ids : list (list (list Z));
  b_label_ids : list Z;
  b_vp_input_ids : list (list (list Z));
  b_vp_input_mask : list (list (list Z));
  b_protected_attr_ids : list Z
}.

(** The accumulators of the loop. *)
Record eval_sums : Type := mkEvalSums {
  eval_loss_pred : R;
  eval_accuracy_pred : Z;
  eval_loss_adv : R;
  eval_accuracy_adv : Z;
  nb_eval_steps : Z;
  nb_eval_examples : Z
}.

(** How the evaluation ends: with the four averages, with the
    [ZeroDivisionError] of one of the final divisions, or with an
    exception raised inside the loop. *)
Inductive eval_outcome : Type :=
  | EvalResult (loss_pred accuracy_pred loss_adv accuracy_adv : R)
  | ZeroDivisionError
  | EvalRaised (e : exn).

Section evaluation.
(** The two models in inference mode, from their inputs to the pair of
    loss and logits: [predictor(input_ids, segment_ids, input_mask,
    label_ids)] and [adversary(vp_input_ids, None, vp_input_mask,
    protected_attr_ids)]. *)
Variable predictor :
  list (list (list Z)) -> list (list (list Z)) -> list (list (list Z)) ->
  list Z -> list R * list (list R).
Variable adversary :
  list (list Z) -> list (list Z) -> list Z -> list R * list (list R).

(** Body of the loop over the batches (lines 636-667). *)
Definition eval_step (s : eval_sums) (b : eval_batch) : result eval_sums :=
  let '(tmp_eval_loss_pred, logits_pred) :=
    predictor (b_input_ids b) (b_segment_ids b) (b_input_mask b)
      (b_label_ids b) in
  '(vp_input_ids, vp_input_mask) ←
    eval_select logits_pred (b_vp_input_ids b) (b_vp_input_mask b);
  let '(tmp_eval_loss_adv, logits_adv) :=
    adversary vp_input_ids vp_input_mask (b_protected_attr_ids b) in
  tmp_eval_accuracy_pred ← accuracy logits_pred (b_label_ids b);
  tmp_eval_accuracy_adv ← accuracy logits_adv (b_protected_attr_ids b);
  Ok (mkEvalSums
        (eval_loss_pred s + mean tmp_eval_loss_pred)
        (eval_accuracy_pred s + tmp_eval_accuracy_pred)
        (eval_loss_adv s + mean tmp_eval_loss_adv)
        (eval_accuracy_adv s + tmp_eval_accuracy_adv)
        (nb_eval_steps s + 1)
        (nb_eval_examples s + len (b_input_ids b))).

Fixpoint eval_loop (s : eval_sums) (batches : list eval_batch)
  : result eval_sums :=
  match batches with
  | [] => Ok s
  | b :: rest => s' ← eval_step s b; eval_loop s' rest
  end.

(** Lines 633-672: the loop from zeroed accumulators, then the four
    divisions. *)
Definition evaluate (batches : list eval_batch) : eval_outcome :=
  match eval_loop (mkEvalSums 0 0 0 0 0 0) batches with
  | Raise e => EvalRaised e
  | Ok s =>
      if (nb_eval_steps s =? 0)%Z then ZeroDivisionError
      else if (nb_eval_examples s =? 0)%Z then ZeroDivisionError
      else EvalResult
             (eval_loss_pred s / IZR (nb_eval_steps s))
             (IZR (eval_accuracy_pred s) / IZR (nb_eval_examples s))
             (eval_loss_adv s / IZR (nb_eval_steps s))
             (IZR (eval_accuracy_adv s) / IZR (nb_eval_examples s))
  end.
End evaluation.

(* ===================================================================== *)
(** * Vocabulary of the properties *)
(* ===================================================================== *)

(** The removals performed in the run of the loop started on [a], [b]:
    [removal m a b s s'] holds when the run passes through the state [s]
    and pops one token there, leaving [s']. *)
Inductive removal {A} (m : Z) :
    list A -> list A -> list A * list A -> list A * list A -> Prop :=
  | removal_here a b a' b' :
      truncate_iter a b m = Popped a' b' ->
      removal m a b (a, b) (a', b')
  | removal_later a b a' b' s s' :
      truncate_iter a b m = Popped a' b' ->
      removal m a' b' s s' ->
      removal m a b s s'.

(** Every ending of the example leaves room for [[CLS]] and [[SEP]] in
    half the sequence length. *)
Definition endings_fit (tk : tokenizer) (max_seq_length : Z)
    (ex : SwagExample) : Prop :=
  forall e, e ∈ endings ex ->
    (len (tokenize tk e) <= max_seq_length / 2 - 2)%Z.

(** The lengths the encoder asserts, on the stored choice. *)
Definition fixed_lengths (max_seq_length : Z) (c : choice_features) : Prop :=
  len (input_ids c) = max_seq_length /\
  len (input_mask c) = max_seq_length /\
  len (segment_ids c) = max_seq_length /\
  len (vp_input_ids c) = (max_seq_length / 2)%Z /\
  len (vp_input_mask c) = (max_seq_length / 2)%Z.

(** The VP ids of a stored choice are those of the whole ending between
    the two markers, followed by zeros. *)
Definition vp_untruncated (tk : tokenizer) (max_seq_length : Z)
    (ending : string) (c : choice_features) : Prop :=
  vp_input_ids c =
    convert_tokens_to_ids tk (["[CLS]"] ++ tokenize tk ending ++ ["[SEP]"])
    ++ repeat_z 0%Z (max_seq_length / 2 - (len (tokenize tk ending) + 2)).

(** [i] is the position of the first maximal entry of [row]. *)
Definition is_argmax (row : list R) (i : nat) : Prop :=
  exists m, row !! i = Some m /\
    (forall j x, row !! j = Some x -> (x <= m)%R) /\
    (forall j x, row !! j = Some x -> j < i -> (x < m)%R).

(** The rows whose prediction equals the label, counted as the
    specification words it. *)
Definition count_correct (preds : list nat) (labels : list Z) : Z :=
  Z.of_nat (length (filter (fun pl => Z.of_nat pl.1 = pl.2) (zip preds labels))).

(** The row of the matrix [m] at position [p]. *)
Definition pick {A} (m : list (list A)) (p : nat) : list A :=
  default [] (m !! p).

(** A tensor of shape [B, C] and one of shape [B, C, L]. *)
Definition shape2 {A} (B C : nat) (t : list (list A)) : Prop :=
  length t = B /\ Forall (fun row => length row = C) t.

Definition shape3 {A} (B C L : nat) (t : list (list (list A))) : Prop :=
  length t = B /\
  Forall (fun m => length m = C /\ Forall (fun row => length row = L) m) t.

(** The confidence as the specification words it: the largest softmax
    probability of one example's per-choice logits, scaled by 100 and
    converted to an integer. *)
Definition max_softmax_confidence (row : list R) : result Z :=
  '(m, _) ← row_max (softmax row); Ok (long (100 * m)).

(** A word of the female or of the male word set. *)
Definition gendered (w : string) : Prop := w ∈ girls \/ w ∈ boys.

#[global] Instance gendered_dec (w : string) : Decision (gendered w).
Proof. unfold gendered. apply _. Defined.

(** The words of a field as the specification names them: separated by
    white space. *)
Definition whitespace_words (s : string) : list string := String.words s.

(** A row is labelled by the specification's criterion when one of the
    words of its column 5 is a gendered word. *)
Definition has_gendered_word (words : list string) : Prop :=
  exists w, w ∈ words /\ gendered w.

(** [w] is the last gendered word of [ws]. *)
Definition last_gendered_word (ws : list string) (w : string) : Prop :=
  exists ws1 ws2, ws = ws1 ++ w :: ws2 /\ gendered w /\
    forall w', w' ∈ ws2 -> ~ gendered w'.

(** The label of a gendered word: 1 for the female set, 0 for the male. *)
Definition label_of (w : string) : cell :=
  if decide (w ∈ girls) then Int 1 else Int 0.

(** A tokenizer and an example for the closed instances below: tokens
    are the fields between single spaces, the id of a token its length. *)
Definition toy_tokenizer : tokenizer :=
  mkTokenizer (split " ") (fun t => Z.of_nat (String.length t)).

Definition toy_example : SwagExample :=
  mkSwagExample "7" "a man is on a boat" "he" "casts a line" "sits" "waves"
    "jumps" (Some 0%Z) (Some 0%Z).

(** A tabulator. *)
Definition tab : string := String "009"%char EmptyString.

(** The dictionary kept for a 7-tuple of the encoder. *)
Definition stored (ct : choice_tuple) : choice_features :=
  mkChoiceFeatures (c_input_ids ct) (c_input_mask ct) (c_segment_ids ct)
    (c_vp_input_ids ct) (c_vp_input_mask ct).

(** [seq] holds [n] entries, the real ones, followed by zeros up to the
    length [total]; [mask] marks exactly the real ones. *)
Definition zero_padded (n total : nat) (seq mask : list Z) : Prop :=
  n <= total /\ length seq = total /\
  drop n seq = replicate (total - n) 0%Z /\
  mask = replicate n 1%Z ++ replicate (total - n) 0%Z.

(** The cells of a data row that [read_swag_examples] copies into an
    example in training mode: columns 2, 4, 5, 7 to 10 as they are,
    columns 11 and 12 through [int]. *)
Definition training_row (int : string -> option Z) (line : list string)
    (ex : SwagExample) : Prop :=
  line !! 2 = Some (swag_id ex) /\
  line !! 4 = Some (context_sentence ex) /\
  line !! 5 = Some (start_ending ex) /\
  line !! 7 = Some (ending_0 ex) /\
  line !! 8 = Some (ending_1 ex) /\
  line !! 9 = Some (ending_2 ex) /\
  line !! 10 = Some (ending_3 ex) /\
  (exists c z, line !! 11 = Some c /\ int c = Some z /\ label ex = Some z) /\
  (exists c z, line !! 12 = Some c /\ int c = Some z /\
               protected_attr ex = Some z).

(** [m] is the largest entry of [row]. *)
Definition row_maximum (row : list R) (m : R) : Prop :=
  m ∈ row /\ forall x, x ∈ row -> (x <= m)%R.

(** The data row has a gendered word among the space-separated fields
    of its column 5. *)
Definition gendered_row (row : list string) : Prop :=
  Exists gendered (split " " (default "" (row !! 5))).

#[global] Instance gendered_row_dec (row : list string) :
  Decision (gendered_row row).
Proof. unfold gendered_row. apply _. Defined.

(** The two models return one row of logits per example: four entries
    from the predictor ([num_choices = 4]), three from the adversary
    ([num_labels = 3]). *)
Definition predictor_rows
    (predictor : list (list (list Z)) -> list (list (list Z)) ->
                 list (list (list Z)) -> list Z -> list R * list (list R))
  : Prop :=
  forall ids segs mask labels,
    shape2 (length labels) 4 (predictor ids segs mask labels).2.

Definition adversary_rows
    (adversary : list (list Z) -> list (list Z) -> list Z ->
                 list R * list (list R)) : Prop :=
  forall ids mask attrs, shape2 (length attrs) 3 (adversary ids mask attrs).2.

(** A batch as the [DataLoader] cuts it from the [TensorDataset] of
    encoded features: it holds at least one example, its tensors have the
    same first dimension, and the VP tensors the shape [B, 4, L] with
    [L >= 1].  (A tensor without elements is no input of the loop:
    [torch] refuses to reshape it with [view].) *)
Definition batch_ok (L : nat) (b : eval_batch) : Prop :=
  0 < L /\
  b_input_ids b <> [] /\
  length (b_label_ids b) = length (b_input_ids b) /\
  length (b_protected_attr_ids b) = length (b_input_ids b) /\
  shape3 (length (b_input_ids b)) 4 L (b_vp_input_ids b) /\
  shape3 (length (b_input_ids b)) 4 L (b_vp_input_mask b).

(** The number of examples in a list of batches. *)
Definition total_examples (batches : list eval_batch) : Z :=
  foldr (fun b acc => (len (b_input_ids b) + acc)%Z) 0%Z batches.

Definition sum_Z (v : list Z) : Z := foldr Z.add 0%Z v.

(** What one batch adds to the four sums of the evaluation. *)
Record batch_scores : Type := mkBatchScores {
  s_loss_pred : R;
  s_hits_pred : Z;
  s_loss_adv : R;
  s_hits_adv : Z
}.

(** The scores of a batch, worded without the loop: the mean of the
    loss each model returns, and for each model the number of examples
    whose first largest logit sits at the label (the gold label for the
    predictor, the protected attribute for the adversary); the adversary
    is run on the VP slices at the predictor's first largest logit. *)
Definition scores_of
    (predictor : list (list (list Z)) -> list (list (list Z)) ->
                 list (list (list Z)) -> list Z -> list R * list (list R))
    (adversary : list (list Z) -> list (list Z) -> list Z ->
                 list R * list (list R))
    (b : eval_batch) (r : batch_scores) : Prop :=
  let out_pred := predictor (b_input_ids b) (b_segment_ids b)
                    (b_input_mask b) (b_label_ids b) in
  exists ps qs,
    Forall2 is_argmax out_pred.2 ps /\
    let out_adv := adversary (zip_with pick (b_vp_input_ids b) ps)
                     (zip_with pick (b_vp_input_mask b) ps)
                     (b_protected_attr_ids b) in
    Forall2 is_argmax out_adv.2 qs /\
    s_loss_pred r = mean out_pred.1 /\
    s_hits_pred r = count_correct ps (b_label_ids b) /\
    s_loss_adv r = mean out_adv.1 /\
    s_hits_adv r = count_correct qs (b_protected_attr_ids b).

(** Two models and a batch for the closed instances of the evaluation
    loop: constant logits, one row per example. *)
Definition toy_predictor
    (ids segs mask : list (list (list Z))) (labels : list Z)
  : list R * list (list R) :=
  ([0%R], map (fun _ => [1; 0; 0; 0]%R) labels).

Definition toy_adversary (ids mask : list (list Z)) (attrs : list Z)
  : list R * list (list R) :=
  ([0%R], map (fun _ => [1; 0; 0]%R) attrs).

Definition toy_batch : eval_batch :=
  mkEvalBatch
    [[[101; 7; 102]; [101; 8; 102]; [101; 9; 102]; [101; 6; 102]]]%Z
    [[[1; 1; 1]; [1; 1; 1]; [1; 1; 1]; [1; 1; 1]]]%Z
    [[[0; 0; 1]; [0; 0; 1]; [0; 0; 1]; [0; 0; 1]]]%Z
    [0%Z]
    [[[101; 7]; [101; 8]; [101; 9]; [101; 6]]]%Z
    [[[1; 1]; [1; 1]; [1; 1]; [1; 1]]]%Z
    [1%Z].

(** A header and a data row in the column layout [read_swag_examples]
    expects. *)
Definition toy_header : list string :=
  ["video-id"; "fold-ind"; "startphrase"; "sent1"; "sent2"; "gold-source";
   "ending0"; "ending1"; "ending2"; "ending3"; "label"; "gender"; "x"].

Definition toy_row : list string :=
  ["0"; "1"; "id7"; "3"; "a man is on a boat"; "he"; "6"; "casts"; "sits";
   "waves"; "jumps"; "1"; "1"].

(* ===================================================================== *)
(** * Properties *)
(* ===================================================================== *)

(** ** Runs on small inputs *)

Example truncate_longer_first :
  _truncate_seq_pair ["a"; "b"; "c"; "d"; "e"] ["f"; "g"; "h"] 4
    = Ok (["a"; "b"], ["f"; "g"]).
Proof. reflexivity. Qed.

Example split_keeps_empty_fields : split " " "a  b" = ["a"; ""; "b"].
Proof. reflexivity. Qed.

Example get_gender_last_word_wins :
  get_gender [["a"; "b"; "c"; "d"; "e"; "sent2"];
              ["0"; "1"; "2"; "3"; "4"; "The man and she"];
              ["0"; "1"; "2"; "3"; "4"; "The dog"];
              ["0"; "1"; "2"; "3"; "4"; "she is a man"]]
  = ([[Str "a"; Str "b"; Str "c"; Str "d"; Str "e"; Str "sent2"; Str "gender"];
      [Str "0"; Str "1"; Str "2"; Str "3"; Str "4"; Str "The man and she";
       Int 1];
      [Str "0"; Str "1"; Str "2"; Str "3"; Str "4"; Str "she is a man";
       Int 0]],
     None).
Proof. vm_compute. reflexivity. Qed.

(** ** The error monad *)

Lemma rmap_Ok_intro {A B} (f : A -> result B) (P : A -> B -> Prop) xs :
  (forall x, x ∈ xs -> exists y, f x = Ok y /\ P x y) ->
  exists ys, rmap f xs = Ok ys /\ Forall2 P xs ys.
Proof.
  induction xs as [|x xs IH]; intros H; cbn.
  - exists []. split; [reflexivity | constructor].
  - destruct (H x) as (y & Ey & Py); [left|].
    destruct IH as (ys & Eys & Pys); [intros z Hz; apply H; now right|].
    exists (y :: ys). rewrite Ey, Eys. split; [reflexivity | now constructor].
Qed.

(** When every element either succeeds or raises [e], and one raises,
    the loop raises [e]. *)
Lemma rmap_Raise_intro {A B} (f : A -> result B) e xs :
  (forall x, x ∈ xs -> f x = Raise e \/ exists y, f x = Ok y) ->
  (exists x, x ∈ xs /\ f x = Raise e) ->
  rmap f xs = Raise e.
Proof.
  induction xs as [|x xs IH]; intros Hall (x0 & Hin & Hx0).
  - inversion Hin.
  - cbn. destruct (Hall x) as [E | (y & E)]; [left | now rewrite E |].
    rewrite E. cbn.
    rewrite IH; [reflexivity | intros z Hz; apply Hall; now right |].
    apply elem_of_cons in Hin as [-> | Hin]; [congruence | eauto].
Qed.

(** ** [_truncate_seq_pair] *)

Lemma truncate_unfold {A} (a b : list A) m :
  _truncate_seq_pair a b m =
  match truncate_iter a b m with
  | Break => Ok (a, b)
  | Popped a' b' => _truncate_seq_pair a' b' m
  | Failed e => Raise e
  end.
Proof.
  funelim (_truncate_seq_pair a b m);
    match goal with E : truncate_iter _ _ _ = _ |- _ => now rewrite E end.
Qed.

Lemma pop_Raise {A} (l : list A) e : pop l = Raise e -> l = [] /\ e = IndexError.
Proof. destruct l; cbn; [intros [= <-]; auto | discriminate]. Qed.

Lemma truncate_iter_Break {A} (a b : list A) m :
  truncate_iter a b m = Break <-> (len a + len b <= m)%Z.
Proof.
  unfold truncate_iter. destruct (Z.leb_spec (len a + len b) m) as [H|H].
  - tauto.
  - split; [|lia]. destruct (_ >? _)%Z.
    + destruct (pop a); discriminate.
    + destruct (pop b); discriminate.
Qed.

Lemma truncate_iter_Failed {A} (a b : list A) m e :
  truncate_iter a b m = Failed e ->
  e = IndexError /\ a = [] /\ b = [] /\ (m < 0)%Z.
Proof.
  unfold truncate_iter, len.
  destruct (Z.leb_spec (Z.of_nat (length a) + Z.of_nat (length b)) m) as [H|H];
    [discriminate|].
  destruct (Z.gtb_spec (Z.of_nat (length a)) (Z.of_nat (length b))) as [G|G].
  - destruct (pop a) eqn:E; [discriminate|]. apply pop_Raise in E as [-> _].
    cbn in G. lia.
  - destruct (pop b) eqn:E; [discriminate|]. apply pop_Raise in E as [-> ->].
    intros [= <-]. destruct a; cbn in *; [auto with lia | lia].
Qed.

(** The result when the budget is not negative. *)
Lemma truncate_total {A} (a b : list A) m :
  (0 <= m)%Z ->
  exists a' b', _truncate_seq_pair a b m = Ok (a', b') /\
    ((len a + len b > m)%Z -> (len a' + len b' = m)%Z) /\
    ((len a + len b <= m)%Z -> a' = a /\ b' = b).
Proof.
  intros Hm. funelim (_truncate_seq_pair a b m).
  - exists tokens_a, tokens_b.
    pose proof (proj1 (truncate_iter_Break _ _ _) e) as Hb.
    split; [reflexivity|]. split; [lia | auto].
  - destruct (H Hm) as (a1 & b1 & E1 & Hgt & Hle).
    exists a1, b1. split; [exact E1|].
    match goal with F : truncate_iter _ _ _ = Popped _ _ |- _ =>
      pose proof (truncate_iter_decreases _ _ _ _ _ F) as Hdec end.
    assert (~ (len tokens_a + len tokens_b <= max_length)%Z) as Hnb.
    { intros Hb. apply truncate_iter_Break in Hb. congruence. }
    unfold len in *. split; [|lia]. intros _.
    destruct (Z_le_gt_dec (Z.of_nat (length a') + Z.of_nat (length b')) max_length)
      as [Hc|Hc].
    + destruct (Hle Hc) as [-> ->]. lia.
    + auto.
  - match goal with F : truncate_iter _ _ _ = Failed _ |- _ =>
      pose proof (truncate_iter_Failed _ _ _ _ F) end. lia.
Qed.

(** A negative budget is never met: the loop empties both lists and then
    pops from an empty one. *)
Lemma truncate_negative {A} (a b : list A) m :
  (m < 0)%Z -> _truncate_seq_pair a b m = Raise IndexError.
Proof.
  intros Hm. funelim (_truncate_seq_pair a b m).
  - pose proof (proj1 (truncate_iter_Break _ _ _) e) as Hb.
    unfold len in Hb. lia.
  - auto.
  - match goal with F : truncate_iter _ _ _ = Failed _ |- _ =>
      now destruct (truncate_iter_Failed _ _ _ _ F) as [-> _] end.
Qed.

Lemma truncate_iter_Popped {A} (a b a' b' : list A) m :
  truncate_iter a b m = Popped a' b' ->
  (len a + len b > m)%Z /\
  (length a > length b -> a' = removelast a /\ b' = b) /\
  (length a <= length b -> a' = a /\ b' = removelast b).
Proof.
  unfold truncate_iter, len.
  destruct (Z.leb_spec (Z.of_nat (length a) + Z.of_nat (length b)) m) as [H|H];
    [discriminate|].
  destruct (Z.gtb_spec (Z.of_nat (length a)) (Z.of_nat (length b))) as [G|G].
  - destruct a as [|x a]; cbn [pop]; [discriminate|].
    intros [= <- <-]. split; [lia|]. split; [auto | lia].
  - destruct b as [|y b]; cbn [pop]; [discriminate|].
    intros [= <- <-]. split; [lia|]. split; [lia | auto].
Qed.

(** C3 (amended): for a budget [max_seq_length - 3] that is not negative,
    [_truncate_seq_pair] returns; when the combined length exceeded the
    budget the two lengths then add up to exactly the budget, and
    otherwise both sequences are unchanged. *)
Theorem truncate_seq_pair_budget {A} (context ending_span : list A)
    (max_seq_length : Z) :
  (3 <= max_seq_length)%Z ->
  exists context' ending_span',
    _truncate_seq_pair context ending_span (max_seq_length - 3)
      = Ok (context', ending_span') /\
    ((len context + len ending_span > max_seq_length - 3)%Z ->
     (len context' + len ending_span' = max_seq_length - 3)%Z) /\
    ((len context + len ending_span <= max_seq_length - 3)%Z ->
     context' = context /\ ending_span' = ending_span).
Proof. intros H. apply truncate_total. lia. Qed.

Lemma truncate_seq_pair_budget_witness :
  (3 <= 7)%Z /\
  exists context' ending_span',
    _truncate_seq_pair ["a"; "b"; "c"] ["d"; "e"] (7 - 3)
      = Ok (context', ending_span') /\
    ((len ["a"; "b"; "c"] + len ["d"; "e"] > 7 - 3)%Z ->
     (len context' + len ending_span' = 7 - 3)%Z) /\
    ((len ["a"; "b"; "c"] + len ["d"; "e"] <= 7 - 3)%Z ->
     context' = ["a"; "b"; "c"] /\ ending_span' = ["d"; "e"]).
Proof.
  split; [lia|]. apply (truncate_seq_pair_budget ["a"; "b"; "c"] ["d"; "e"] 7).
  lia.
Defined.

(** C3 as stated fails when [max_seq_length < 3]: the budget is negative,
    the call raises [IndexError] and returns no pair of the promised
    combined length. *)
Lemma truncate_seq_pair_negative_budget :
  _truncate_seq_pair ["a"; "b"] ["c"] (2 - 3) = Raise IndexError /\
  ~ exists context' ending_span',
      _truncate_seq_pair ["a"; "b"] ["c"] (2 - 3)
        = Ok (context', ending_span') /\
      (len context' + len ending_span' = 2 - 3)%Z.
Proof.
  split; [reflexivity|]. intros (c & e & H & _). discriminate H.
Qed.

(** C4: the procedure is the iteration of [truncate_iter], and every
    removal in a run takes the last token of the first sequence when it
    is strictly longer, and of the second (the ending span) otherwise,
    ties included.  The run is a function of its arguments. *)
Theorem truncate_removes_from_longer {A} (tokens_a tokens_b : list A)
    (max_length : Z) :
  _truncate_seq_pair tokens_a tokens_b max_length =
    match truncate_iter tokens_a tokens_b max_length with
    | Break => Ok (tokens_a, tokens_b)
    | Popped a' b' => _truncate_seq_pair a' b' max_length
    | Failed e => Raise e
    end /\
  forall a b a' b',
    removal max_length tokens_a tokens_b (a, b) (a', b') ->
    (length a > length b -> a' = removelast a /\ b' = b) /\
    (length a = length b -> a' = a /\ b' = removelast b) /\
    (length a < length b -> a' = a /\ b' = removelast b).
Proof.
  split; [apply truncate_unfold|].
  intros a b a' b' H.
  remember (a, b) as s eqn:Es. remember (a', b') as s' eqn:Es'.
  induction H as [x y x' y' Hstep | x y x' y' s s' Hstep Hrun IH].
  - injection Es as <- <-. injection Es' as <- <-.
    apply truncate_iter_Popped in Hstep as (_ & Hgt & Hle).
    split; [exact Hgt|]. split; intros; apply Hle; lia.
  - now apply IH.
Qed.

Lemma truncate_removes_from_longer_witness :
  removal 2 ["a"; "b"] ["c"; "d"] (["a"; "b"], ["c"]) (["a"], ["c"]) /\
  ["a"] = removelast ["a"; "b"] /\ ["c"] = ["c"].
Proof.
  assert (removal 2 ["a"; "b"] ["c"; "d"] (["a"; "b"], ["c"]) (["a"], ["c"]))
    as R.
  { eapply removal_later; [reflexivity|]. apply removal_here. reflexivity. }
  split; [exact R|].
  apply (proj2 (truncate_removes_from_longer ["a"; "b"] ["c"; "d"] 2)
           _ _ _ _ R).
  cbn. lia.
Defined.

(** ** [convert_examples_to_features] *)

Lemma half_div (max_seq_length : Z) :
  (0 <= max_seq_length)%Z -> half max_seq_length = (max_seq_length / 2)%Z.
Proof. intros H. unfold half. apply Z.quot_div_nonneg; lia. Qed.

Lemma len_app {A} (l k : list A) : len (l ++ k) = (len l + len k)%Z.
Proof. unfold len. rewrite length_app. lia. Qed.

Lemma len_cons {A} (x : A) (l : list A) : len (x :: l) = (1 + len l)%Z.
Proof. unfold len. cbn [length]. lia. Qed.

Lemma len_repeat_z {A} (x : A) n : len (repeat_z x n) = Z.max 0 n.
Proof. unfold len, repeat_z. rewrite length_replicate. lia. Qed.

Lemma len_convert tk tokens : len (convert_tokens_to_ids tk tokens) = len tokens.
Proof. unfold len, convert_tokens_to_ids. now rewrite length_map. Qed.

Lemma len_nonneg {A} (l : list A) : (0 <= len l)%Z.
Proof. unfold len. lia. Qed.

Ltac len_simpl :=
  repeat (rewrite ?len_app, ?len_cons, ?len_repeat_z, ?len_convert);
  unfold len in *; cbn [length].

Ltac pass_assert k :=
  match goal with
  | |- context [assert k ?c] =>
      replace c with true by (symmetry; apply Z.eqb_eq; len_simpl; lia)
  end; cbn [assert mbind result_bind].

(** What [encode_choice] returns for an ending whose tokens leave room
    for the two marker tokens in half the sequence length. *)
Lemma encode_choice_ok tk max_seq_length ctx se ending :
  (3 <= max_seq_length)%Z ->
  (len (tokenize tk ending) <= max_seq_length / 2 - 2)%Z ->
  exists c, encode_choice tk max_seq_length ctx se ending = Ok c /\
    len (c_input_ids c) = max_seq_length /\
    len (c_input_mask c) = max_seq_length /\
    len (c_segment_ids c) = max_seq_length /\
    len (c_vp_input_ids c) = (max_seq_length / 2)%Z /\
    len (c_vp_input_mask c) = (max_seq_length / 2)%Z /\
    c_vp_tokens c = ["[CLS]"] ++ tokenize tk ending ++ ["[SEP]"] /\
    c_vp_input_ids c =
      convert_tokens_to_ids tk (["[CLS]"] ++ tokenize tk ending ++ ["[SEP]"])
      ++ repeat_z 0%Z (max_seq_length / 2 - (len (tokenize tk ending) + 2)).
Proof.
  intros Hm Hn. unfold encode_choice.
  destruct (truncate_total ctx (se ++ tokenize tk ending) (max_seq_length - 3))
    as (c' & e' & -> & Hgt & Hle); [lia|].
  assert (len c' + len e' <= max_seq_length - 3)%Z as Hfit.
  { destruct (Z_le_gt_dec (len ctx + len (se ++ tokenize tk ending))
                (max_seq_length - 3)) as [H|H].
    - destruct (Hle H) as [-> ->]. exact H.
    - rewrite (Hgt H). lia. }
  rewrite (half_div max_seq_length) by lia.
  pose proof (len_nonneg c'). pose proof (len_nonneg e').
  pose proof (len_nonneg (tokenize tk ending)).
  cbn [mbind result_bind].
  pass_assert 1. pass_assert 2. pass_assert 3. pass_assert 4. pass_assert 5.
  eexists. split; [reflexivity|]. cbn [c_input_ids c_input_mask c_segment_ids
    c_vp_input_ids c_vp_input_mask c_vp_tokens].
  repeat split; len_simpl; try lia.
  do 2 f_equal. lia.
Qed.

(** An ending with more tokens fails the fourth assertion. *)
Lemma encode_choice_long tk max_seq_length ctx se ending :
  (3 <= max_seq_length)%Z ->
  (len (tokenize tk ending) > max_seq_length / 2 - 2)%Z ->
  encode_choice tk max_seq_length ctx se ending = Raise (AssertionError 4).
Proof.
  intros Hm Hn. unfold encode_choice.
  destruct (truncate_total ctx (se ++ tokenize tk ending) (max_seq_length - 3))
    as (c' & e' & -> & Hgt & Hle); [lia|].
  assert (len c' + len e' <= max_seq_length - 3)%Z as Hfit.
  { destruct (Z_le_gt_dec (len ctx + len (se ++ tokenize tk ending))
                (max_seq_length - 3)) as [H|H].
    - destruct (Hle H) as [-> ->]. exact H.
    - rewrite (Hgt H). lia. }
  rewrite (half_div max_seq_length) by lia.
  pose proof (len_nonneg c'). pose proof (len_nonneg e').
  pose proof (len_nonneg (tokenize tk ending)).
  cbn [mbind result_bind].
  pass_assert 1. pass_assert 2. pass_assert 3.
  match goal with
  | |- context [assert 4 ?c] =>
      replace c with false
        by (symmetry; apply Z.eqb_neq; len_simpl; lia)
  end.
  reflexivity.
Qed.

(** Below three positions the truncation budget is negative. *)
Lemma encode_choice_small tk max_seq_length ctx se ending :
  (max_seq_length < 3)%Z ->
  encode_choice tk max_seq_length ctx se ending = Raise IndexError.
Proof.
  intros Hm. unfold encode_choice.
  rewrite truncate_negative by lia. reflexivity.
Qed.

Lemma rmap_Ok_elem {A B} (f : A -> result B) xs ys x :
  rmap f xs = Ok ys -> x ∈ xs -> exists y, f x = Ok y /\ y ∈ ys.
Proof.
  revert ys. induction xs as [|x0 xs IH]; intros ys H Hin; [inversion Hin|].
  cbn in H. destruct (f x0) as [y0|] eqn:E0; cbn in H; [|discriminate].
  destruct (rmap f xs) as [ys'|] eqn:Eys; cbn in H; [|discriminate].
  injection H as <-. apply elem_of_cons in Hin as [-> | Hin].
  - exists y0. split; [exact E0 | left].
  - destruct (IH ys' eq_refl Hin) as (y & Ey & Hy). exists y. split; [exact Ey | now right].
Qed.

Lemma endings_fit_bound tk max_seq_length ex :
  endings_fit tk max_seq_length ex -> (4 <= max_seq_length)%Z.
Proof.
  intros H. specialize (H (ending_0 ex)).
  pose proof (len_nonneg (tokenize tk (ending_0 ex))).
  assert (ending_0 ex ∈ endings ex) as Hin by left.
  specialize (H Hin).
  destruct (Z_lt_le_dec max_seq_length 4) as [Hlt|Hge]; [|exact Hge].
  assert (max_seq_length / 2 < 2)%Z by (apply Z.div_lt_upper_bound; lia).
  lia.
Qed.

Lemma encode_example_ok tk max_seq_length ex :
  endings_fit tk max_seq_length ex ->
  exists f, encode_example tk max_seq_length ex = Ok f /\
    length (choices_features f) = 4 /\
    Forall (fixed_lengths max_seq_length) (choices_features f) /\
    Forall2 (vp_untruncated tk max_seq_length) (endings ex)
      (choices_features f).
Proof.
  intros Hfit. pose proof (endings_fit_bound _ _ _ Hfit) as Hm.
  unfold encode_example.
  destruct (rmap_Ok_intro
              (encode_choice tk max_seq_length
                 (tokenize tk (context_sentence ex))
                 (tokenize tk (start_ending ex)))
              (fun e c =>
                 fixed_lengths max_seq_length
                   (mkChoiceFeatures (c_input_ids c) (c_input_mask c)
                      (c_segment_ids c) (c_vp_input_ids c) (c_vp_input_mask c))
                 /\ vp_untruncated tk max_seq_length e
                   (mkChoiceFeatures (c_input_ids c) (c_input_mask c)
                      (c_segment_ids c) (c_vp_input_ids c) (c_vp_input_mask c)))
              (endings ex)) as (cs & -> & Hcs).
  { intros e He.
    destruct (encode_choice_ok tk max_seq_length
                (tokenize tk (context_sentence ex))
                (tokenize tk (start_ending ex)) e)
      as (c & Ec & H1 & H2 & H3 & H4 & H5 & _ & H7);
      [lia | now apply Hfit |].
    exists c. split; [exact Ec|]. split; [repeat split; assumption | exact H7]. }
  eexists. split; [reflexivity|].
  cbn [choices_features new_InputFeatures].
  pose proof (Forall2_length _ _ _ Hcs) as Hlen. cbn in Hlen.
  split; [now rewrite length_map|].
  split.
  - clear Hlen. induction Hcs as [|e c es cs' [Hl _] _ IH]; cbn; constructor; auto.
  - clear Hlen. induction Hcs as [|e c es cs' [_ Hv] _ IH]; cbn; constructor; auto.
Qed.

(** With at least three positions, an example either encodes or fails
    the VP length assertion. *)
Lemma encode_example_cases tk max_seq_length ex :
  (3 <= max_seq_length)%Z ->
  (endings_fit tk max_seq_length ex /\
     exists f, encode_example tk max_seq_length ex = Ok f) \/
  ((exists e, e ∈ endings ex /\
      (len (tokenize tk e) > max_seq_length / 2 - 2)%Z) /\
   encode_example tk max_seq_length ex = Raise (AssertionError 4)).
Proof.
  intros Hm.
  destruct (decide (Forall (fun e =>
              (len (tokenize tk e) <= max_seq_length / 2 - 2)%Z)
              (endings ex))) as [Hall | Hnot].
  - left. assert (endings_fit tk max_seq_length ex) as Hfit.
    { intros e He. eapply Forall_forall in Hall; eauto. }
    split; [exact Hfit|].
    destruct (encode_example_ok _ _ _ Hfit) as (f & Ef & _). eauto.
  - right. apply not_Forall_Exists in Hnot; [|intros e; apply _].
    apply Exists_exists in Hnot as (e & He & Hlong). unfold compose in Hlong.
    split; [exists e; split; [exact He | lia]|].
    unfold encode_example. erewrite rmap_Raise_intro; [reflexivity | |].
    + intros e' _.
      destruct (Z_le_gt_dec (len (tokenize tk e')) (max_seq_length / 2 - 2))
        as [Hs|Hl].
      * right. destruct (encode_choice_ok tk max_seq_length
                  (tokenize tk (context_sentence ex))
                  (tokenize tk (start_ending ex)) e' Hm Hs) as (c & Ec & _).
        eauto.
      * left. now apply encode_choice_long.
    + exists e. split; [exact He|]. apply encode_choice_long; lia.
Qed.

Lemma encode_example_small tk max_seq_length ex :
  (max_seq_length < 3)%Z ->
  encode_example tk max_seq_length ex = Raise IndexError.
Proof.
  intros Hm. unfold encode_example. cbn [endings rmap].
  rewrite !encode_choice_small by exact Hm. reflexivity.
Qed.

Lemma encode_example_Ok_fit tk max_seq_length ex f :
  encode_example tk max_seq_length ex = Ok f ->
  endings_fit tk max_seq_length ex.
Proof.
  intros E. destruct (Z_lt_le_dec max_seq_length 3) as [Hs|Hm].
  - rewrite encode_example_small in E by exact Hs. discriminate.
  - destruct (encode_example_cases tk max_seq_length ex Hm) as [[H _]|[_ H]];
      [exact H | congruence].
Qed.

Lemma convert_ok examples tk max_seq_length is_training :
  (forall ex, ex ∈ examples -> endings_fit tk max_seq_length ex) ->
  exists features,
    convert_examples_to_features examples tk max_seq_length is_training
      = Ok features /\
    Forall2 (fun ex f =>
               length (choices_features f) = 4 /\
               Forall (fixed_lengths max_seq_length) (choices_features f) /\
               Forall2 (vp_untruncated tk max_seq_length) (endings ex)
                 (choices_features f))
            examples features.
Proof.
  intros Hfit. unfold convert_examples_to_features.
  apply rmap_Ok_intro. intros ex Hex.
  apply encode_example_ok, Hfit, Hex.
Qed.

(** Where the encoder does keep the fixed lengths: when every ending of
    every example tokenizes to at most [max_seq_length // 2 - 2] tokens,
    it returns one feature per example, each with exactly 4 choices whose
    [input_ids], [input_mask] and [segment_ids] have length
    [max_seq_length] and whose [vp_input_ids] and [vp_input_mask] have
    length [max_seq_length // 2]. *)
Lemma features_have_fixed_lengths (examples : list SwagExample)
    (tk : tokenizer) (max_seq_length : Z) (is_training : bool) :
  (forall ex, ex ∈ examples -> endings_fit tk max_seq_length ex) ->
  exists features,
    convert_examples_to_features examples tk max_seq_length is_training
      = Ok features /\
    length features = length examples /\
    Forall (fun f =>
              length (choices_features f) = 4 /\
              Forall (fixed_lengths max_seq_length) (choices_features f))
           features.
Proof.
  intros Hfit.
  destruct (convert_ok examples tk max_seq_length is_training Hfit)
    as (fs & E & H).
  exists fs. split; [exact E|]. split.
  - symmetry. eapply Forall2_length, H.
  - clear E Hfit. induction H as [|ex f exs fs' (H4 & Hl & _) _ IH];
      constructor; auto.
Qed.

Lemma toy_example_fits_16 : endings_fit toy_tokenizer 16 toy_example.
Proof.
  intros e He. cbn in He.
  repeat (apply elem_of_cons in He as [-> | He]; [vm_compute; discriminate|]).
  inversion He.
Defined.

Lemma features_have_fixed_lengths_witness :
  (forall ex, ex ∈ [toy_example] -> endings_fit toy_tokenizer 16 ex) /\
  exists features,
    convert_examples_to_features [toy_example] toy_tokenizer 16 true
      = Ok features /\
    length features = length [toy_example] /\
    Forall (fun f =>
              length (choices_features f) = 4 /\
              Forall (fixed_lengths 16) (choices_features f))
           features.
Proof.
  assert (forall ex, ex ∈ [toy_example] -> endings_fit toy_tokenizer 16 ex)
    as Hfit.
  { intros ex Hex. apply list_elem_of_singleton in Hex as ->.
    exact toy_example_fits_16. }
  split; [exact Hfit|].
  apply (features_have_fixed_lengths [toy_example] toy_tokenizer 16 true Hfit).
Defined.

(** C2 (the code at the failing input): on an example with the
    three-token ending "casts a line" and [max_seq_length = 8] the encoder
    produces no feature.  The full sequence of that choice is cut to the
    budget of 5 tokens by [_truncate_seq_pair], but the VP sequence
    [[CLS] casts a line [SEP]] keeps its 5 entries where
    [max_seq_length // 2 = 4] are allowed: it is padded, never truncated,
    and the encoder's own fourth length assertion fails. *)
Theorem long_ending_has_no_features :
  convert_examples_to_features [toy_example] toy_tokenizer 8 true
    = Raise (AssertionError 4) /\
  (~ exists features,
       convert_examples_to_features [toy_example] toy_tokenizer 8 true
         = Ok features) /\
  _truncate_seq_pair (tokenize toy_tokenizer (context_sentence toy_example))
      (tokenize toy_tokenizer (start_ending toy_example)
         ++ tokenize toy_tokenizer (ending_0 toy_example)) (8 - 3)
    = Ok (["a"; "man"; "is"], ["he"; "casts"]) /\
  len (convert_tokens_to_ids toy_tokenizer
         (["[CLS]"] ++ tokenize toy_tokenizer (ending_0 toy_example)
            ++ ["[SEP]"])) = 5%Z /\
  half 8 = 4%Z.
Proof.
  assert (convert_examples_to_features [toy_example] toy_tokenizer 8 true
            = Raise (AssertionError 4)) as E by (vm_compute; reflexivity).
  split; [exact E|]. split; [intros (fs & H); congruence|].
  split; [vm_compute; reflexivity|]. split; reflexivity.
Qed.

(** C9 (amended): the encoder returns exactly when every ending of every
    example tokenizes to at most [max_seq_length // 2 - 2] tokens; the VP
    ids it then stores are those of the whole ending between the two
    markers, zero-padded; and when [max_seq_length >= 3] a longer ending
    makes the VP length assertion (the fourth) fail. *)
Theorem vp_sequence_is_never_truncated (examples : list SwagExample)
    (tk : tokenizer) (max_seq_length : Z) (is_training : bool) :
  ((exists features,
      convert_examples_to_features examples tk max_seq_length is_training
        = Ok features) <->
   (forall ex, ex ∈ examples -> endings_fit tk max_seq_length ex)) /\
  (forall features,
      convert_examples_to_features examples tk max_seq_length is_training
        = Ok features ->
      Forall2 (fun ex f =>
                 Forall2 (vp_untruncated tk max_seq_length) (endings ex)
                   (choices_features f))
              examples features) /\
  ((3 <= max_seq_length)%Z ->
   (exists ex e, ex ∈ examples /\ e ∈ endings ex /\
      (len (tokenize tk e) > max_seq_length / 2 - 2)%Z) ->
   convert_examples_to_features examples tk max_seq_length is_training
     = Raise (AssertionError 4)).
Proof.
  assert (forall features,
      convert_examples_to_features examples tk max_seq_length is_training
        = Ok features ->
      forall ex, ex ∈ examples -> endings_fit tk max_seq_length ex) as Hret.
  { intros fs E ex Hex. unfold convert_examples_to_features in E.
    destruct (rmap_Ok_elem _ _ _ _ E Hex) as (f & Ef & _).
    eapply encode_example_Ok_fit, Ef. }
  split; [|split].
  - split.
    + intros (fs & E). eapply Hret, E.
    + intros Hfit.
      destruct (convert_ok examples tk max_seq_length is_training Hfit)
        as (fs & E & _). eauto.
  - intros fs E.
    destruct (convert_ok examples tk max_seq_length is_training (Hret fs E))
      as (fs' & E' & H).
    assert (fs' = fs) as -> by congruence.
    clear E E' Hret. induction H as [|ex f exs fs' (_ & _ & Hv) _ IH];
      constructor; auto.
  - intros Hm (ex & e & Hex & He & Hlong).
    unfold convert_examples_to_features. apply rmap_Raise_intro.
    + intros ex' _.
      destruct (encode_example_cases tk max_seq_length ex' Hm)
        as [[_ (f & Ef)]|[_ Er]]; eauto.
    + exists ex. split; [exact Hex|].
      destruct (encode_example_cases tk max_seq_length ex Hm)
        as [[Hfit _]|[_ Er]]; [|exact Er].
      specialize (Hfit e He). lia.
Qed.

Lemma vp_sequence_is_never_truncated_witness :
  (3 <= 8)%Z /\
  (exists ex e, ex ∈ [toy_example] /\ e ∈ endings ex /\
     (len (tokenize toy_tokenizer e) > 8 / 2 - 2)%Z) /\
  convert_examples_to_features [toy_example] toy_tokenizer 8 true
    = Raise (AssertionError 4).
Proof.
  assert (exists ex e, ex ∈ [toy_example] /\ e ∈ endings ex /\
            (len (tokenize toy_tokenizer e) > 8 / 2 - 2)%Z) as Hlong.
  { exists toy_example, "casts a line". split; [left|]. split; [left|].
    vm_compute. reflexivity. }
  split; [lia|]. split; [exact Hlong|].
  apply (proj2 (proj2 (vp_sequence_is_never_truncated
                         [toy_example] toy_tokenizer 8 true)));
    [lia | exact Hlong].
Defined.

(** C9 as stated fails when [max_seq_length < 3]: an ending is longer than
    [max_seq_length // 2 - 2], yet the encoder stops in
    [_truncate_seq_pair] with [IndexError] before any assertion is
    evaluated. *)
Lemma short_sequence_fails_before_assertions :
  (len (tokenize toy_tokenizer (ending_0 toy_example)) > 2 / 2 - 2)%Z /\
  convert_examples_to_features [toy_example] toy_tokenizer 2 true
    = Raise IndexError /\
  convert_examples_to_features [toy_example] toy_tokenizer 2 true
    <> Raise (AssertionError 4).
Proof.
  assert (convert_examples_to_features [toy_example] toy_tokenizer 2 true
            = Raise IndexError) as E by (vm_compute; reflexivity).
  split; [vm_compute; reflexivity|]. split; [exact E|].
  rewrite E. discriminate.
Qed.

(** ** [read_swag_examples] *)

Lemma index_Raise {A} (l : list A) i e : index l i = Raise e -> e = IndexError.
Proof. unfold index. destruct (l !! i); [discriminate | now intros [= <-]]. Qed.

Lemma py_int_Raise int cell e : py_int int cell = Raise e -> e = invalid_literal.
Proof. unfold py_int. destruct (int cell); [discriminate | now intros [= <-]]. Qed.

Ltac step_bind H :=
  match type of H with
  | (?m ≫= _) = Raise ?e =>
      let E := fresh "E" in
      destruct m eqn:E; cbn [mbind result_bind] in H;
      [|injection H as <-]
  end.

(** Building one example raises nothing but the two data errors. *)
Lemma example_of_line_Raise int is_training line e :
  example_of_line int is_training line = Raise e ->
  e = IndexError \/ e = invalid_literal.
Proof.
  unfold example_of_line. intros H.
  do 7 (step_bind H; [|left; eapply index_Raise; eassumption]).
  step_bind H.
  2:{ destruct is_training; [|discriminate].
      step_bind E6; [|left; eapply index_Raise; eassumption].
      step_bind E6; [discriminate|right; eapply py_int_Raise; eassumption]. }
  step_bind H; [discriminate|].
  destruct is_training; [|discriminate].
  step_bind E7; [|left; eapply index_Raise; eassumption].
  step_bind E7; [discriminate|right; eapply py_int_Raise; eassumption].
Qed.

Lemma construct_examples_Raise int is_training lines n e :
  (construct_examples int is_training lines n).2 = Raise e ->
  e = IndexError \/ e = invalid_literal.
Proof.
  revert n. induction lines as [|line rest IH]; intros n; cbn; [discriminate|].
  destruct (example_of_line int is_training line) as [ex|e'] eqn:E.
  - specialize (IH (S n)).
    destruct (construct_examples int is_training rest (S n)) as [n' r].
    cbn in *. destruct r as [exs|e'']; cbn; [discriminate|].
    intros [= <-]. now apply IH.
  - cbn. intros [= <-]. eapply example_of_line_Raise, E.
Qed.

(** C7: [read_swag_examples] raises the configuration error
    ([ValueError]) if and only if it is called in training mode on a file
    whose header row has no ['label'] cell, and then no [SwagExample] has
    been constructed. *)
Theorem read_swag_examples_label_column (int : string -> option Z)
    (lines : list (list string)) (is_training : bool) :
  ((read_swag_examples int lines is_training).2 = Raise missing_label_column <->
   is_training = true /\
   exists header rows, lines = header :: rows /\ "label" ∉ header) /\
  ((read_swag_examples int lines is_training).2 = Raise missing_label_column ->
   (read_swag_examples int lines is_training).1 = 0).
Proof.
  unfold read_swag_examples.
  destruct is_training.
  - destruct lines as [|header rows]; cbn [index lookup list_lookup mbind result_bind].
    + cbn. split; [|discriminate]. split; [discriminate|].
      intros (_ & h & r & [=] & _).
    + cbn [drop]. case_bool_decide as Hl.
      * cbn. split; [|reflexivity]. split; [|reflexivity].
        intros _. split; [reflexivity|]. eauto.
      * assert ((construct_examples int true rows 0).2 <> Raise missing_label_column)
          as Hne.
        { intros H. apply construct_examples_Raise in H as [H|H]; discriminate. }
        split; [|intros H; contradiction].
        split; [intros H; contradiction|].
        intros (_ & h & r & [= <- <-] & Hno). contradiction.
  - assert ((construct_examples int false (drop 1 lines) 0).2
              <> Raise missing_label_column) as Hne.
    { intros H. apply construct_examples_Raise in H as [H|H]; discriminate. }
    split; [|intros H; contradiction].
    split; [intros H; contradiction | intros [[=] _]].
Qed.

Lemma read_swag_examples_label_column_witness :
  (read_swag_examples (fun _ => Some 0%Z) [["id"; "text"]; ["1"; "x"]] true).2
    = Raise missing_label_column /\
  (read_swag_examples (fun _ => Some 0%Z) [["id"; "text"]; ["1"; "x"]] true).1
    = 0.
Proof.
  assert ((read_swag_examples (fun _ => Some 0%Z)
             [["id"; "text"]; ["1"; "x"]] true).2 = Raise missing_label_column) as E
    by (vm_compute; reflexivity).
  split; [exact E|].
  apply (proj2 (read_swag_examples_label_column (fun _ => Some 0%Z)
                  [["id"; "text"]; ["1"; "x"]] true) E).
Defined.

(** ** Argmax, accuracy and the choice of the VP slice *)

Lemma row_max_Raise row e : row_max row = Raise e -> row = [].
Proof.
  destruct row as [|x rest]; [reflexivity|]. cbn.
  destruct (row_max rest) as [[m i]|]; [|discriminate].
  destruct (Rlt_dec x m); discriminate.
Qed.

Lemma row_max_Ok row : row <> [] -> exists m i, row_max row = Ok (m, i).
Proof.
  destruct (row_max row) as [[m i]|e] eqn:E; [eauto|].
  intros H. apply row_max_Raise in E. contradiction.
Qed.

Lemma row_max_spec row m i :
  row_max row = Ok (m, i) ->
  row !! i = Some m /\
  (forall j x, row !! j = Some x -> (x <= m)%R) /\
  (forall j x, row !! j = Some x -> j < i -> (x < m)%R).
Proof.
  revert m i. induction row as [|x rest IH]; intros m i; cbn; [discriminate|].
  destruct (row_max rest) as [[m' i']|e] eqn:E.
  - destruct (IH m' i' eq_refl) as (Hl & Hmax & Hfirst).
    destruct (Rlt_dec x m') as [Hlt|Hge]; intros [= <- <-].
    + split; [exact Hl|]. split.
      * intros [|j] y Hy; cbn in Hy; [injection Hy as <-; lra | eauto].
      * intros [|j] y Hy Hj; cbn in Hy; [injection Hy as <-; lra|].
        eapply Hfirst; [exact Hy | lia].
    + split; [reflexivity|]. split; [|intros; lia].
      intros [|j] y Hy; cbn in Hy; [injection Hy as <-; lra|].
      specialize (Hmax j y Hy). lra.
  - intros [= <- <-]. apply row_max_Raise in E as ->.
    split; [reflexivity|]. split; [|intros; lia].
    intros [|j] y Hy; cbn in Hy; [injection Hy as <-; lra | discriminate].
Qed.

Lemma row_max_is_argmax row m i : row_max row = Ok (m, i) -> is_argmax row i.
Proof. intros H. exists m. now apply row_max_spec. Qed.

Lemma is_argmax_unique row i j : is_argmax row i -> is_argmax row j -> i = j.
Proof.
  intros (m & Hi & Hmax & Hfirst) (m' & Hj & Hmax' & Hfirst').
  destruct (lt_eq_lt_dec i j) as [[Hlt|Heq]|Hgt]; [|exact Heq|].
  - pose proof (Hfirst' i m Hi Hlt). pose proof (Hmax j m' Hj). lra.
  - pose proof (Hfirst j m' Hj Hgt). pose proof (Hmax' i m Hi). lra.
Qed.

Lemma is_argmax_lt row i : is_argmax row i -> i < length row.
Proof. intros (m & Hi & _). eapply lookup_lt_Some, Hi. Qed.

(** On rows that are not empty [argmax_dim1] returns the argmax of
    every row. *)
Lemma argmax_dim1_Ok (t : list (list R)) :
  Forall (fun row => row <> []) t ->
  exists ps, argmax_dim1 t = Ok ps /\ Forall2 is_argmax t ps.
Proof.
  intros Hne. unfold argmax_dim1.
  destruct (rmap_Ok_intro row_max (fun row r => is_argmax row r.2) t)
    as (rs & -> & Hrs).
  { intros row Hrow. eapply Forall_forall in Hne; [|exact Hrow].
    destruct (row_max_Ok row Hne) as (m & i & E).
    exists (m, i). split; [exact E|]. eapply row_max_is_argmax, E. }
  exists (map snd rs). split; [reflexivity|].
  clear Hne. induction Hrs as [|row r ? ? Hr _ IH]; cbn; [constructor|].
  constructor; [exact Hr | exact IH].
Qed.

Lemma max_dim1_Ok (t : list (list R)) :
  Forall (fun row => row <> []) t ->
  exists ms ps, max_dim1 t = Ok (ms, ps) /\ Forall2 is_argmax t ps /\
    Forall2 (fun row m => exists p, row_max row = Ok (m, p)) t ms.
Proof.
  intros Hne. unfold max_dim1.
  destruct (rmap_Ok_intro row_max (fun row r => row_max row = Ok r) t)
    as (rs & -> & Hrs).
  { intros row Hrow. eapply Forall_forall in Hne; [|exact Hrow].
    destruct (row_max_Ok row Hne) as (m & i & E). eauto. }
  exists (map fst rs), (map snd rs). split; [reflexivity|]. split.
  - clear Hne. induction Hrs as [|row [m p] ? ? E _ IH]; cbn; [constructor|].
    constructor; [eapply row_max_is_argmax, E | exact IH].
  - clear Hne. induction Hrs as [|row [m p] ? ? E _ IH]; cbn; [constructor|].
    constructor; [exists p; exact E | exact IH].
Qed.

Lemma is_argmax_Forall2_unique t ps qs :
  Forall2 is_argmax t ps -> Forall2 is_argmax t qs -> ps = qs.
Proof.
  intros H. revert qs. induction H as [|row p t' ps' Hp _ IH]; intros qs Hq.
  - now inversion Hq.
  - inversion Hq as [|? q ? qs' Hq1 Hq2]; subst.
    f_equal; [eapply is_argmax_unique; eauto | now apply IH].
Qed.

Lemma sum_bool_zip preds labels :
  sum_bool (zip_with Z.eqb (map Z.of_nat preds) labels)
  = count_correct preds labels.
Proof.
  unfold count_correct. revert labels.
  induction preds as [|p preds IH]; intros [|l labels]; try reflexivity.
  change (zip (p :: preds) (l :: labels)) with ((p, l) :: zip preds labels).
  rewrite filter_cons. cbn [map zip_with sum_bool foldr].
  fold (sum_bool (zip_with Z.eqb (map Z.of_nat preds) labels)).
  rewrite IH. cbn [fst snd].
  destruct (Z.eqb_spec (Z.of_nat p) l) as [Heq|Hne].
  - rewrite decide_True by exact Heq. cbn [length]. lia.
  - rewrite decide_False by exact Hne. lia.
Qed.

Ltac decide_Rlt :=
  repeat match goal with
         | |- context [Rlt_dec ?x ?y] => destruct (Rlt_dec x y); try lra
         end.

Lemma accuracy_argmax (out : list (list R)) (labels : list Z)
    (preds : list nat) :
  length labels = length out ->
  Forall2 is_argmax out preds ->
  accuracy out labels = Ok (count_correct preds labels).
Proof.
  intros Hlen Hpreds. unfold accuracy.
  destruct (argmax_dim1_Ok out) as (ps & -> & Hps).
  { clear Hlen. induction Hpreds as [|row p ? ? Hp _ IH]; constructor; auto.
    intros ->. destruct Hp as (m & Hm & _). discriminate. }
  assert (ps = preds) as -> by (eapply is_argmax_Forall2_unique; eauto).
  cbn [mbind result_bind]. unfold eq_broadcast.
  rewrite length_map, <- (Forall2_length _ _ _ Hpreds), <- Hlen, Nat.eqb_refl.
  cbn [mbind result_bind]. now rewrite sum_bool_zip.
Qed.

(** C8: on the logits [[0.1, 0.9], [0.8, 0.2]] and the labels [1, 0]
    [accuracy] returns 2; on any logits with as many rows as labels it
    returns the number of rows whose argmax equals the row's label. *)
Theorem accuracy_counts_argmax_hits :
  accuracy [[0.1; 0.9]; [0.8; 0.2]]%R [1; 0]%Z = Ok 2%Z /\
  forall (out : list (list R)) (labels : list Z) (preds : list nat),
    length labels = length out ->
    Forall2 is_argmax out preds ->
    accuracy out labels = Ok (count_correct preds labels).
Proof.
  split; [|exact accuracy_argmax].
  unfold accuracy, argmax_dim1. cbn [rmap row_max mbind result_bind].
  decide_Rlt. reflexivity.
Qed.

Lemma accuracy_counts_argmax_hits_witness :
  Forall2 is_argmax [[0.1; 0.9]; [0.8; 0.2]]%R [1; 0] /\
  accuracy [[0.1; 0.9]; [0.8; 0.2]]%R [1; 0]%Z = Ok (count_correct [1; 0] [1; 0]%Z).
Proof.
  assert (Forall2 is_argmax [[0.1; 0.9]; [0.8; 0.2]]%R [1; 0]) as H.
  { repeat constructor.
    - exists 0.9%R. split; [reflexivity|]. split.
      + intros [|[|j]] x; cbn; intros [= <-]; lra.
      + intros [|[|j]] x; cbn; intros [= <-] Hj; [lra | lia].
    - exists 0.8%R. split; [reflexivity|]. split.
      + intros [|[|j]] x; cbn; intros [= <-]; lra.
      + intros j x _ Hj; lia. }
  split; [exact H|].
  apply (proj2 accuracy_counts_argmax_hits
           [[0.1; 0.9]; [0.8; 0.2]]%R [1; 0]%Z [1; 0] eq_refl H).
Defined.

Lemma index_lookup {A} (l : list A) i x : l !! i = Some x -> index l i = Ok x.
Proof. unfold index. now intros ->. Qed.

Lemma gather_cells {A} (inp : list (list A)) (c : nat) (row : list A) :
  inp !! c = Some row ->
  forall (suf pre : list A) (f : nat -> nat -> nat * nat),
    row = pre ++ suf ->
    (forall k c', f k c' = (length pre + k, c')) ->
    rmap (fun '(k, c') => r ← index inp c'; index r k)
         (imap f (replicate (length suf) c)) = Ok suf.
Proof.
  intros Hrow. induction suf as [|x suf IH]; intros pre f Hsplit Hf;
    [reflexivity|].
  cbn [length replicate imap rmap]. rewrite Hf.
  rewrite (index_lookup _ _ _ Hrow). cbn [mbind result_bind].
  rewrite (index_lookup row (length pre + 0) x).
  2:{ rewrite Hsplit, Nat.add_0_r, lookup_app_r by lia.
      now rewrite Nat.sub_diag. }
  cbn [mbind result_bind].
  rewrite (IH (pre ++ [x]) (f ∘ S)); [reflexivity | |].
  - now rewrite <- app_assoc.
  - intros k c'. unfold compose. rewrite Hf, length_app. cbn [length].
    f_equal. lia.
Qed.

Lemma gather_expand {A} (t : list (list (list A))) (ps : list nat) (L : nat) :
  Forall2 (fun m p => exists row, m !! p = Some row /\ length row = L) t ps ->
  gather_dim1 t (expand_index ps L)
    = Ok (zip_with (fun m p => [pick m p]) t ps).
Proof.
  intros H. unfold gather_dim1, expand_index.
  rewrite length_map, (Forall2_length _ _ _ H), Nat.eqb_refl.
  cbn [negb]. induction H as [|m p t' ps' (row & Hrow & Hlen) _ IH];
    [reflexivity|].
  cbn [map zip_with rmap]. fold (zip t' (map (fun i => [replicate L i]) ps')).
  rewrite <- Hlen.
  rewrite (gather_cells m p row Hrow row [] pair); [|reflexivity|reflexivity].
  cbn [mbind result_bind]. rewrite Hlen, IH. cbn [mbind result_bind].
  unfold pick. now rewrite Hrow.
Qed.

Lemma view_rows_singletons {A} (t : list (list (list A))) (ps : list nat) :
  view_rows (zip_with (fun m p => [pick m p]) t ps) = zip_with pick t ps.
Proof.
  unfold view_rows. revert ps.
  induction t as [|m t IH]; intros [|p ps]; cbn; try reflexivity.
  now rewrite app_nil_r, IH.
Qed.

Lemma size2_shape3 {A} (B C L : nat) (t : list (list (list A))) :
  shape3 B C L t -> 0 < B -> 0 < C -> size2 t = L.
Proof.
  intros [Hlen Hall] HB HC. destruct t as [|m t]; [cbn in Hlen; lia|].
  apply Forall_cons in Hall as [[Hm Hrows] _].
  destruct m as [|row m]; [cbn in Hm; lia|].
  apply Forall_cons in Hrows as [Hrow _]. exact Hrow.
Qed.

(** The index tensor built from in-range predictions selects, for every
    example, the row of its matrix at the predicted position. *)
Lemma select_slices {A} (B C L : nat) (t : list (list (list A)))
    (ps : list nat) :
  shape3 B C L t -> 0 < C -> length ps = B -> Forall (fun p => p < C) ps ->
  gather_dim1 t (expand_index ps (size2 t))
    = Ok (zip_with (fun m p => [pick m p]) t ps) /\
  Forall (fun s => length s = L) (zip_with pick t ps).
Proof.
  intros Hshape HC Hps Hlt.
  destruct (Nat.eq_dec B 0) as [-> | HB].
  { destruct Hshape as [Ht _]. apply length_zero_iff_nil in Ht as ->.
    apply length_zero_iff_nil in Hps as ->. split; [reflexivity | constructor]. }
  rewrite (size2_shape3 B C L t Hshape) by lia.
  destruct Hshape as [Ht Hall].
  assert (Forall2 (fun m p => exists row, m !! p = Some row /\ length row = L)
            t ps) as H2.
  { apply Forall2_same_length_lookup_2; [congruence|].
    intros i m p Hm Hp.
    eapply Forall_lookup_1 in Hall as [HmC Hrows]; [|exact Hm].
    eapply Forall_lookup_1 in Hlt; [|exact Hp].
    destruct (lookup_lt_is_Some_2 m p) as [row Hrow]; [lia|].
    exists row. split; [exact Hrow|].
    eapply Forall_lookup_1 in Hrows; eauto. }
  split; [now apply gather_expand|].
  clear -H2. induction H2 as [|m p t' ps' (row & Hrow & Hlen) _ IH];
    cbn; constructor; [|exact IH].
  unfold pick. now rewrite Hrow.
Qed.

Lemma is_argmax_in_range (B C : nat) (logits : list (list R)) ps :
  shape2 B C logits -> Forall2 is_argmax logits ps ->
  length ps = B /\ Forall (fun p => p < C) ps.
Proof.
  intros [Hlen Hall] H. split.
  - rewrite <- Hlen. symmetry. eapply Forall2_length, H.
  - clear Hlen. induction H as [|row p ? ? Hp _ IH]; constructor.
    + apply Forall_cons in Hall as [<- _]. now apply is_argmax_lt.
    + apply IH. now apply Forall_cons in Hall as [_ ?].
Qed.

Lemma shape2_nonempty {A} (B C : nat) (t : list (list A)) :
  shape2 B C t -> 0 < C -> Forall (fun row => row <> []) t.
Proof.
  intros [_ Hall] HC. eapply Forall_impl; [exact Hall|].
  intros row Hrow ->. cbn in Hrow. lia.
Qed.

Lemma eval_select_slices (B C L : nat) (logits : list (list R))
    (ids mask : list (list (list Z))) :
  0 < C -> shape2 B C logits -> shape3 B C L ids -> shape3 B C L mask ->
  exists ps, Forall2 is_argmax logits ps /\
    eval_select logits ids mask
      = Ok (zip_with pick ids ps, zip_with pick mask ps) /\
    Forall (fun s => length s = L) (zip_with pick ids ps) /\
    Forall (fun s => length s = L) (zip_with pick mask ps).
Proof.
  intros HC Hlog Hids Hmask. unfold eval_select.
  destruct (argmax_dim1_Ok logits) as (ps & -> & Hps);
    [eapply shape2_nonempty; eauto|].
  destruct (is_argmax_in_range B C logits ps Hlog Hps) as [Hlen Hlt].
  destruct (select_slices B C L ids ps Hids HC Hlen Hlt) as [Ei Li].
  destruct (select_slices B C L mask ps Hmask HC Hlen Hlt) as [Em Lm].
  exists ps. split; [exact Hps|]. cbn [mbind result_bind].
  rewrite Ei. cbn [mbind result_bind].
  assert (size2 mask = size2 ids) as Hsz.
  { destruct (Nat.eq_dec B 0) as [-> | HB].
    - destruct Hids as [Hi _], Hmask as [Hm _].
      apply length_zero_iff_nil in Hi as ->.
      now apply length_zero_iff_nil in Hm as ->.
    - rewrite (size2_shape3 B C L ids), (size2_shape3 B C L mask);
        auto with lia. }
  rewrite <- Hsz, Em. cbn [mbind result_bind].
  rewrite !view_rows_singletons. auto.
Qed.

(** C5: in evaluation mode the adversary's input for every example of the
    batch is the VP slice (ids and mask) at the argmax of that example's
    predictor logits, as it stands: [L] entries, no position added. *)
Theorem eval_selects_argmax_slice (B C L : nat) (logits_pred : list (list R))
    (batch_vp_input_ids batch_vp_input_mask : list (list (list Z))) :
  0 < C ->
  shape2 B C logits_pred ->
  shape3 B C L batch_vp_input_ids ->
  shape3 B C L batch_vp_input_mask ->
  exists adv_ids adv_mask,
    eval_select logits_pred batch_vp_input_ids batch_vp_input_mask
      = Ok (adv_ids, adv_mask) /\
    length adv_ids = B /\ length adv_mask = B /\
    forall i row p,
      logits_pred !! i = Some row -> is_argmax row p ->
      exists choices_ids choices_mask slice_ids slice_mask,
        batch_vp_input_ids !! i = Some choices_ids /\
        choices_ids !! p = Some slice_ids /\
        adv_ids !! i = Some slice_ids /\ length slice_ids = L /\
        batch_vp_input_mask !! i = Some choices_mask /\
        choices_mask !! p = Some slice_mask /\
        adv_mask !! i = Some slice_mask /\ length slice_mask = L.
Proof.
  intros HC Hlog Hids Hmask.
  destruct (eval_select_slices B C L logits_pred batch_vp_input_ids
              batch_vp_input_mask HC Hlog Hids Hmask)
    as (ps & Hps & E & Li & Lm).
  destruct (is_argmax_in_range B C logits_pred ps Hlog Hps) as [Hlen Hlt].
  destruct Hids as [Hi Hia], Hmask as [Hm Hma].
  eexists _, _. split; [exact E|].
  split; [rewrite length_zip_with; lia|].
  split; [rewrite length_zip_with; lia|].
  intros i row p Hrow Hp.
  destruct (Forall2_lookup_l _ _ _ _ _ Hps Hrow) as (q & Hq & Hargq).
  assert (q = p) as -> by (eapply is_argmax_unique; eauto).
  pose proof (lookup_lt_Some _ _ _ Hq) as Hi_lt.
  destruct (lookup_lt_is_Some_2 batch_vp_input_ids i) as [mi Hmi]; [lia|].
  destruct (lookup_lt_is_Some_2 batch_vp_input_mask i) as [mm Hmm]; [lia|].
  eapply Forall_lookup_1 in Hlt; [|exact Hq].
  destruct (Forall_lookup_1 _ _ _ _ Hia Hmi) as [HCi _].
  destruct (Forall_lookup_1 _ _ _ _ Hma Hmm) as [HCm _].
  destruct (lookup_lt_is_Some_2 mi p) as [si Hsi]; [lia|].
  destruct (lookup_lt_is_Some_2 mm p) as [sm Hsm]; [lia|].
  assert (zip_with pick batch_vp_input_ids ps !! i = Some si) as Hzi.
  { rewrite lookup_zip_with, Hmi. cbn. rewrite Hq. cbn.
    unfold pick. now rewrite Hsi. }
  assert (zip_with pick batch_vp_input_mask ps !! i = Some sm) as Hzm.
  { rewrite lookup_zip_with, Hmm. cbn. rewrite Hq. cbn.
    unfold pick. now rewrite Hsm. }
  exists mi, mm, si, sm.
  repeat split; try assumption.
  - eapply Forall_lookup_1 in Li; eauto.
  - eapply Forall_lookup_1 in Lm; eauto.
Qed.

Lemma eval_selects_argmax_slice_witness :
  0 < 4 /\
  shape2 1 4 [[0.1; 0.7; 0.3; 0.2]]%R /\
  shape3 1 4 2 [[[101; 5]; [101; 6]; [101; 7]; [101; 8]]]%Z /\
  shape3 1 4 2 [[[1; 1]; [1; 1]; [1; 1]; [1; 1]]]%Z /\
  exists adv_ids adv_mask,
    eval_select [[0.1; 0.7; 0.3; 0.2]]%R
      [[[101; 5]; [101; 6]; [101; 7]; [101; 8]]]%Z
      [[[1; 1]; [1; 1]; [1; 1]; [1; 1]]]%Z = Ok (adv_ids, adv_mask) /\
    length adv_ids = 1 /\ length adv_mask = 1 /\
    forall i row p,
      [[0.1; 0.7; 0.3; 0.2]]%R !! i = Some row -> is_argmax row p ->
      exists choices_ids choices_mask slice_ids slice_mask,
        [[[101; 5]; [101; 6]; [101; 7]; [101; 8]]]%Z !! i = Some choices_ids /\
        choices_ids !! p = Some slice_ids /\
        adv_ids !! i = Some slice_ids /\ length slice_ids = 2 /\
        [[[1; 1]; [1; 1]; [1; 1]; [1; 1]]]%Z !! i = Some choices_mask /\
        choices_mask !! p = Some slice_mask /\
        adv_mask !! i = Some slice_mask /\ length slice_mask = 2.
Proof.
  assert (shape2 1 4 [[0.1; 0.7; 0.3; 0.2]]%R) as H2
    by (split; [reflexivity | repeat constructor]).
  assert (shape3 1 4 2 [[[101; 5]; [101; 6]; [101; 7]; [101; 8]]]%Z) as H3
    by (split; [reflexivity | repeat constructor]).
  assert (shape3 1 4 2 [[[1; 1]; [1; 1]; [1; 1]; [1; 1]]]%Z) as H3'
    by (split; [reflexivity | repeat constructor]).
  split; [lia|]. split; [exact H2|]. split; [exact H3|]. split; [exact H3'|].
  apply (eval_selects_argmax_slice 1 4 2 _ _ _ (Nat.lt_0_succ 3) H2 H3 H3').
Defined.

(** ** The confidence position of the training loop *)

Lemma long_IZR (z : Z) : long (IZR z) = z.
Proof.
  unfold long. destruct (Rle_dec 0 (IZR z)); [apply ZfloorZ|].
  unfold Zceil. rewrite ZfloorNZ. lia.
Qed.

Lemma length_softmax v : length (softmax v) = length v.
Proof. unfold softmax. now rewrite length_map. Qed.

Lemma cat_dim1_cons {A} (xs : list A) (ss : list (list A)) :
  length xs = length ss ->
  cat_dim1 (map (fun x => [x]) xs) ss = Ok (zip_with cons xs ss).
Proof.
  intros Hlen. unfold cat_dim1. rewrite length_map, Hlen, Nat.eqb_refl.
  f_equal. clear Hlen. revert ss.
  induction xs as [|x xs IH]; intros [|s ss]; cbn; try reflexivity.
  now rewrite IH.
Qed.

Lemma confidence_column (qs : list R) :
  map (fun p => [long (100 * p)]) qs
  = map (fun x => [x]) (map (fun q => long (100 * q)) qs).
Proof. now rewrite map_map. Qed.

Lemma ones_column (qs : list R) :
  map (map (fun z => (0 * z + 1)%Z)) (map (fun p => [long (100 * p)]) qs)
  = map (fun x => [x]) (map (fun _ => 1%Z) qs).
Proof. rewrite !map_map. apply map_ext. intros q. cbn. f_equal. Qed.

(** What [train_select] returns on a well-shaped batch: every example's
    slice at its argmax, behind one more position that holds, in the ids,
    the scaled entry of the softmax taken over the batch of row maxima,
    and, in the mask, 1. *)
Lemma train_select_slices (B C L : nat) (logits : list (list R))
    (ids mask : list (list (list Z))) :
  0 < C -> shape2 B C logits -> shape3 B C L ids -> shape3 B C L mask ->
  exists ms ps,
    max_dim1 logits = Ok (ms, ps) /\ Forall2 is_argmax logits ps /\
    train_select logits ids mask
      = Ok (zip_with cons (map (fun q => long (100 * q)) (softmax ms))
              (zip_with pick ids ps),
            zip_with cons (map (fun _ => 1%Z) (softmax ms))
              (zip_with pick mask ps)).
Proof.
  intros HC Hlog Hids Hmask. unfold train_select.
  destruct (max_dim1_Ok logits) as (ms & ps & E & Hps & Hms);
    [eapply shape2_nonempty; eauto|].
  exists ms, ps. split; [exact E|]. split; [exact Hps|].
  rewrite E. cbn [mbind result_bind].
  destruct (is_argmax_in_range B C logits ps Hlog Hps) as [Hlen Hlt].
  destruct (select_slices B C L ids ps Hids HC Hlen Hlt) as [Ei _].
  destruct (select_slices B C L mask ps Hmask HC Hlen Hlt) as [Em _].
  assert (size2 mask = size2 ids) as Hsz.
  { destruct (Nat.eq_dec B 0) as [-> | HB].
    - destruct Hids as [Hi _], Hmask as [Hm _].
      apply length_zero_iff_nil in Hi as ->.
      now apply length_zero_iff_nil in Hm as ->.
    - rewrite (size2_shape3 B C L ids), (size2_shape3 B C L mask);
        auto with lia. }
  assert (length ms = B) as Hms_len.
  { rewrite <- (Forall2_length _ _ _ Hms). apply Hlog. }
  destruct Hids as [Hi _], Hmask as [Hm _].
  rewrite Ei. cbn [mbind result_bind].
  rewrite view_rows_singletons, confidence_column, cat_dim1_cons
    by (rewrite length_map, length_softmax, length_zip_with; lia).
  cbn [mbind result_bind].
  rewrite <- Hsz, Em. cbn [mbind result_bind].
  rewrite view_rows_singletons, <- confidence_column, ones_column,
    cat_dim1_cons
    by (rewrite length_map, length_softmax, length_zip_with; lia).
  reflexivity.
Qed.

Lemma sum_exp_bounds (v : list R) :
  (0 <= sum_R (map exp v))%R /\
  forall x, x ∈ v -> (exp x <= sum_R (map exp v))%R.
Proof.
  induction v as [|y v [IH0 IH]]; cbn [map sum_R foldr].
  - split; [lra | intros x Hx; inversion Hx].
  - fold (sum_R (map exp v)). pose proof (exp_pos y). split; [lra|].
    intros x Hx. apply elem_of_cons in Hx as [-> | Hx]; [lra|].
    specialize (IH x Hx). lra.
Qed.

Lemma softmax_entry_range (v : list R) (q : R) :
  q ∈ softmax v -> (0 < q <= 1)%R.
Proof.
  unfold softmax. intros Hq. apply list_elem_of_In, in_map_iff in Hq
    as (x & <- & Hx). apply list_elem_of_In in Hx.
  destruct (sum_exp_bounds v) as [_ Hge]. specialize (Hge x Hx).
  pose proof (exp_pos x) as Hpos.
  assert (0 < sum_R (map exp v))%R as Hs by lra.
  split.
  - apply Rdiv_lt_0_compat; assumption.
  - apply Rmult_le_reg_r with (sum_R (map exp v)); [exact Hs|].
    unfold Rdiv. rewrite Rmult_assoc, Rinv_l by lra. lra.
Qed.

Lemma long_percent_range (q : R) :
  (0 <= q <= 1)%R -> (0 <= long (100 * q) <= 100)%Z.
Proof.
  intros [H0 H1]. unfold long.
  destruct (Rle_dec 0 (100 * q)) as [_|Hn]; [|exfalso; lra]. split.
  - apply Zfloor_lub. lra.
  - assert (100 * q <= IZR 100)%R as H by lra.
    apply Zfloor_le in H. now rewrite ZfloorZ in H.
Qed.

Lemma Forall_zip_with_cons {A} (P : A -> Prop) (cs : list A)
    (ss : list (list A)) :
  Forall P cs ->
  Forall (fun row => exists c rest, row = c :: rest /\ P c)
         (zip_with cons cs ss).
Proof.
  intros H. revert ss. induction H as [|c cs Hc _ IH]; intros [|s ss]; cbn;
    constructor; eauto.
Qed.

(** The position the training loop prepends holds an integer between 0
    and 100 in the ids and 1 in the mask. *)
Lemma train_select_leading_position (B C L : nat) (logits : list (list R))
    (ids mask : list (list (list Z))) adv_ids adv_mask :
  0 < C -> shape2 B C logits -> shape3 B C L ids -> shape3 B C L mask ->
  train_select logits ids mask = Ok (adv_ids, adv_mask) ->
  Forall (fun row => exists c rest, row = c :: rest /\ (0 <= c <= 100)%Z)
         adv_ids /\
  Forall (fun row => exists c rest, row = c :: rest /\ c = 1%Z) adv_mask.
Proof.
  intros HC Hlog Hids Hmask E.
  destruct (train_select_slices B C L logits ids mask HC Hlog Hids Hmask)
    as (ms & ps & _ & _ & E').
  rewrite E' in E. injection E as <- <-.
  split; apply Forall_zip_with_cons, Forall_forall; intros c Hc;
    apply list_elem_of_In, in_map_iff in Hc as (q & <- & Hq).
  - apply long_percent_range. apply list_elem_of_In in Hq.
    destruct (softmax_entry_range ms q Hq). lra.
  - reflexivity.
Qed.

Lemma Rlt_exp_neg5 : (exp (-5) < 1 / 6)%R.
Proof.
  assert (1 + 5 < exp 5)%R as H5 by (apply exp_ineq1; lra).
  pose proof (exp_pos 5) as Hp.
  replace (-5)%R with (Ropp 5) by lra.
  rewrite exp_Ropp. apply Rmult_lt_reg_r with (exp 5); [exact Hp|].
  rewrite Rinv_l by lra. lra.
Qed.

Lemma long_lower_bound (z : Z) (x : R) :
  (0 <= z)%Z -> (IZR z <= x)%R -> (z <= long x)%Z.
Proof.
  intros Hz Hx. unfold long.
  assert (0 <= IZR z)%R by now apply IZR_le.
  destruct (Rle_dec 0 x); [now apply Zfloor_lub | lra].
Qed.

(** On the logits [0, -5, -5, -5] the confidence of the specification
    is at least 66. *)
Lemma max_softmax_confidence_peaked :
  exists c, max_softmax_confidence [0; -5; -5; -5]%R = Ok c /\ (66 <= c)%Z.
Proof.
  unfold max_softmax_confidence.
  destruct (row_max_Ok (softmax [0; -5; -5; -5]%R)) as (m & i & E);
    [discriminate|].
  rewrite E. cbn [mbind result_bind]. eexists. split; [reflexivity|].
  apply row_max_spec in E as (_ & Hmax & _).
  specialize (Hmax 0 _ eq_refl).
  unfold sum_R in Hmax. cbn [map foldr] in Hmax. rewrite exp_0 in Hmax.
  pose proof Rlt_exp_neg5 as H5. pose proof (exp_pos (-5)) as Hp.
  set (x := exp (-5)) in *.
  apply long_lower_bound; [lia|].
  assert (2 / 3 < 1 / (1 + (x + (x + (x + 0)))))%R as Hq.
  { apply Rmult_lt_reg_r with (1 + (x + (x + (x + 0))))%R; [lra|].
    unfold Rdiv at 2. rewrite Rmult_assoc, Rinv_l by lra. lra. }
  lra.
Qed.

Lemma max_dim1_peaked :
  max_dim1 [[0; -5; -5; -5]; [-5; 0; -5; -5]]%R = Ok ([0; 0]%R, [0; 1]).
Proof. unfold max_dim1. cbn [rmap row_max]. decide_Rlt. reflexivity. Qed.

Lemma softmax_pair : softmax [0; 0]%R = [(1 / 2)%R; (1 / 2)%R].
Proof.
  unfold softmax, sum_R. cbn [map foldr]. rewrite exp_0.
  replace (1 / (1 + (1 + 0)))%R with (1 / 2)%R by lra. reflexivity.
Qed.

(** C1 (the code at the failing input): for a batch of two examples with
    the logits [0, -5, -5, -5] and [-5, 0, -5, -5] the training loop
    prepends 50 to both gathered VP id sequences (and 1 to both masks),
    while the maximum softmax probability of the first example's logits,
    scaled to an integer, is at least 66. *)
Theorem train_select_prepends_batch_softmax :
  train_select [[0; -5; -5; -5]; [-5; 0; -5; -5]]%R
    [[[101; 5; 102]; [101; 6; 102]; [101; 7; 102]; [101; 8; 102]];
     [[101; 9; 102]; [101; 3; 102]; [101; 4; 102]; [101; 2; 102]]]%Z
    [[[1; 1; 1]; [1; 1; 1]; [1; 1; 1]; [1; 1; 1]];
     [[1; 1; 1]; [1; 1; 1]; [1; 1; 1]; [1; 1; 1]]]%Z
  = Ok ([[50; 101; 5; 102]; [50; 101; 3; 102]]%Z,
        [[1; 1; 1; 1]; [1; 1; 1; 1]]%Z) /\
  exists c, max_softmax_confidence [0; -5; -5; -5]%R = Ok c /\ (66 <= c)%Z.
Proof.
  split; [|exact max_softmax_confidence_peaked].
  destruct (train_select_slices 2 4 3
              [[0; -5; -5; -5]; [-5; 0; -5; -5]]%R
              [[[101; 5; 102]; [101; 6; 102]; [101; 7; 102]; [101; 8; 102]];
               [[101; 9; 102]; [101; 3; 102]; [101; 4; 102]; [101; 2; 102]]]%Z
              [[[1; 1; 1]; [1; 1; 1]; [1; 1; 1]; [1; 1; 1]];
               [[1; 1; 1]; [1; 1; 1]; [1; 1; 1]; [1; 1; 1]]]%Z)
    as (ms & ps & Emax & _ & ->);
    try (split; [reflexivity | repeat constructor]); [lia|].
  rewrite max_dim1_peaked in Emax. injection Emax as <- <-.
  rewrite softmax_pair. cbn [map zip_with pick lookup list_lookup default].
  replace (100 * (1 / 2))%R with (IZR 50) by lra.
  rewrite long_IZR. reflexivity.
Qed.

(** ** The combined objective *)

Lemma training_step_losses_combined (a : args) (n_gpu : Z)
    (loss_pred loss_adv : list R) (s : step_losses) :
  training_step_losses a n_gpu loss_pred loss_adv = Ok s ->
  loss s = ((history_entry s).1 - alpha * (history_entry s).2)%R /\
  adversary_loss s = (history_entry s).2.
Proof.
  unfold training_step_losses.
  destruct (if (n_gpu >? 1)%Z then Ok (mean loss_pred) else item loss_pred)
    as [lp|]; [|discriminate].
  destruct (if (n_gpu >? 1)%Z then Ok (mean loss_adv) else item loss_adv)
    as [la|]; [|discriminate].
  cbn [mbind result_bind]. intros [= <-]. cbn. split; reflexivity.
Qed.

(** C6: the loss backpropagated for the predictor update is
    [L_p - alpha * L_a] with [alpha = 1], where [L_p] and [L_a] are the
    predictor and adversary losses of the step as the loop uses and
    records them; under the default flags (one device, no reduced
    precision, no gradient accumulation) these are the losses the two
    models return. *)
Theorem combined_objective (a : args) (n_gpu : Z) :
  alpha = 1%R /\
  (forall loss_pred loss_adv s,
     training_step_losses a n_gpu loss_pred loss_adv = Ok s ->
     loss s = ((history_entry s).1 - alpha * (history_entry s).2)%R /\
     loss s = ((history_entry s).1 - (history_entry s).2)%R) /\
  (forall L_p L_a,
     (n_gpu <= 1)%Z -> fp16 a = false ->
     (gradient_accumulation_steps a <= 1)%Z ->
     training_step_losses a n_gpu [L_p] [L_a]
       = Ok (mkStepLosses (L_p, L_a) (L_p - alpha * L_a) L_a)).
Proof.
  split; [reflexivity|]. split.
  - intros lp la s E.
    destruct (training_step_losses_combined _ _ _ _ _ E) as [H _].
    split; [exact H|]. rewrite H. unfold alpha. lra.
  - intros L_p L_a Hg Hf Hacc. unfold training_step_losses.
    replace (n_gpu >? 1)%Z with false
      by (symmetry; rewrite Z.gtb_ltb; apply Z.ltb_ge; lia).
    cbn [item mbind result_bind]. rewrite Hf. cbn [andb].
    replace (gradient_accumulation_steps a >? 1)%Z with false
      by (symmetry; rewrite Z.gtb_ltb; apply Z.ltb_ge; lia).
    reflexivity.
Qed.

Lemma combined_objective_witness :
  (1 <= 1)%Z /\ fp16 (mkArgs false 0 1) = false /\
  (gradient_accumulation_steps (mkArgs false 0 1) <= 1)%Z /\
  training_step_losses (mkArgs false 0 1) 1 [2%R] [3%R]
    = Ok (mkStepLosses (2, 3)%R (2 - alpha * 3)%R 3%R).
Proof.
  split; [lia|]. split; [reflexivity|]. split; [cbn; lia|].
  apply (proj2 (proj2 (combined_objective (mkArgs false 0 1) 1)) 2%R 3%R);
    [lia | reflexivity | cbn; lia].
Defined.

(** ** [get_gender.py] *)

Lemma update_label_gendered l w :
  gendered w -> update_label l w = label_of w.
Proof.
  intros Hg. unfold update_label, label_of.
  destruct (decide (w ∈ girls)) as [Hw|Hw].
  - now rewrite bool_decide_eq_true_2.
  - rewrite bool_decide_eq_false_2 by exact Hw.
    destruct Hg as [Hg|Hg]; [contradiction|].
    now rewrite bool_decide_eq_true_2.
Qed.

Lemma update_label_other l w : ~ gendered w -> update_label l w = l.
Proof.
  intros Hg. unfold update_label.
  rewrite !bool_decide_eq_false_2; [reflexivity | |];
    intros H; apply Hg; [right | left]; exact H.
Qed.

Lemma foldl_update_label ws l :
  (Forall (fun w => ~ gendered w) ws /\ foldl update_label l ws = l) \/
  (exists w, last_gendered_word ws w /\
             foldl update_label l ws = label_of w).
Proof.
  revert l. induction ws as [|w ws IH]; intros l; [left; split; [constructor | reflexivity]|].
  cbn [foldl].
  destruct (IH (update_label l w)) as [[Hnone E] | (w' & Hlast & E)].
  - destruct (decide (gendered w)) as [Hg|Hg].
    + right. exists w. split.
      * exists [], ws. split; [reflexivity|]. split; [exact Hg|].
        intros w' Hw'. eapply Forall_forall in Hnone; eauto.
      * rewrite E. now apply update_label_gendered.
    + left. split; [constructor; assumption|].
      rewrite E. now apply update_label_other.
  - right. exists w'. split; [|exact E].
    destruct Hlast as (ws1 & ws2 & -> & Hg & Hrest).
    exists (w :: ws1), ws2. split; [reflexivity|]. split; assumption.
Qed.

Lemma label_of_not_empty w : label_of w <> Str "".
Proof. unfold label_of. destruct (decide _); discriminate. Qed.

Lemma last_gendered_word_has ws w :
  last_gendered_word ws w -> has_gendered_word ws.
Proof.
  intros (ws1 & ws2 & -> & Hg & _). exists w. split; [|exact Hg].
  apply elem_of_app. right. left.
Qed.

Lemma has_gendered_word_last ws :
  has_gendered_word ws -> exists w, last_gendered_word ws w.
Proof.
  intros (w & Hw & Hg).
  destruct (foldl_update_label ws (Str "")) as [[Hnone _] | (w' & Hlast & _)].
  - eapply Forall_forall in Hnone; [|exact Hw]. contradiction.
  - eauto.
Qed.

(** The row written for a data row with a column 5, if any. *)
Lemma label_row_spec (row : list string) (np : string) :
  row !! 5 = Some np ->
  (~ has_gendered_word (split " " np) /\ label_row row = Ok None) \/
  (exists w, last_gendered_word (split " " np) w /\
             label_row row = Ok (Some (map Str row ++ [label_of w]))).
Proof.
  intros Hnp. unfold label_row. rewrite (index_lookup _ _ _ Hnp).
  cbn [mbind result_bind]. unfold gender_label.
  destruct (foldl_update_label (split " " np) (Str ""))
    as [[Hnone ->] | (w & Hlast & ->)].
  - left. split.
    + intros (w & Hw & Hg). eapply Forall_forall in Hnone; eauto.
    + now rewrite bool_decide_eq_false_2 by (intros H; now apply H).
  - right. exists w. split; [exact Hlast|].
    now rewrite bool_decide_eq_true_2 by apply label_of_not_empty.
Qed.

Lemma map_Str_inj (r1 r2 : list string) : map Str r1 = map Str r2 -> r1 = r2.
Proof.
  revert r2. induction r1 as [|x r1 IH]; intros [|y r2]; cbn; try discriminate;
    [reflexivity|].
  intros [= -> H]. f_equal. now apply IH.
Qed.

(** The rows the loop writes are the data rows with a gendered word in
    column 5, each followed by the label of its last gendered word. *)
Lemma label_rows_spec (rows : list (list string)) :
  (forall row, row ∈ rows -> 5 < length row) ->
  exists body, label_rows rows = (body, None) /\
    forall out, out ∈ body <->
      exists row np w, row ∈ rows /\ row !! 5 = Some np /\
        last_gendered_word (split " " np) w /\
        out = map Str row ++ [label_of w].
Proof.
  induction rows as [|row rows IH]; intros Hcols.
  - exists []. split; [reflexivity|]. intros out. split.
    + intros H. inversion H.
    + intros (row & _ & _ & H & _). inversion H.
  - destruct IH as (body & E & Hbody);
      [intros r Hr; apply Hcols; now right|].
    destruct (lookup_lt_is_Some_2 row 5) as [np Hnp]; [apply Hcols; left|].
    cbn [label_rows]. rewrite E.
    destruct (label_row_spec row np Hnp) as [[Hno ->] | (w & Hlast & ->)].
    + exists body. split; [reflexivity|]. intros out. rewrite Hbody. split.
      * intros (r & np' & w & Hr & Hn & Hl & ->).
        exists r, np', w. split; [now right | auto].
      * intros (r & np' & w & Hr & Hn & Hl & ->).
        apply elem_of_cons in Hr as [-> | Hr].
        -- exfalso. apply Hno. assert (np' = np) as -> by congruence.
           eapply last_gendered_word_has, Hl.
        -- exists r, np', w. auto.
    + exists ((map Str row ++ [label_of w]) :: body).
      split; [reflexivity|]. intros out. rewrite elem_of_cons, Hbody. split.
      * intros [-> | (r & np' & w' & Hr & Hn & Hl & ->)].
        -- exists row, np, w. split; [left | auto].
        -- exists r, np', w'. split; [now right | auto].
      * intros (r & np' & w' & Hr & Hn & Hl & ->).
        apply elem_of_cons in Hr as [-> | Hr].
        -- left. assert (np' = np) as -> by congruence.
           destruct Hlast as (a1 & a2 & Ea & Ga & Na).
           destruct Hl as (b1 & b2 & Eb & Gb & Nb).
           assert (w' = w) as ->; [|reflexivity].
           rewrite Ea in Eb. clear -Eb Ga Gb Na Nb.
           revert b1 Eb. induction a1 as [|x a1 IHa]; intros [|y b1] Eb;
             cbn in Eb; injection Eb as Hh Ht.
           ++ now symmetry.
           ++ subst. exfalso. eapply Na; [|exact Gb].
              apply elem_of_app. right. left.
           ++ subst. exfalso. eapply Nb; [|exact Ga].
              apply elem_of_app. right. left.
           ++ eapply IHa, Ht.
        -- right. exists r, np', w'. auto.
Qed.

(** C10 (amended): the header row is always written with ['gender']
    appended; and on a file whose data rows all have a column 5 the
    script ends normally, writes a data row if and only if one of the
    words of its column 5, split at every single space character,
    belongs to the female or to the male word set, and appends to such a
    row the label of the last such word: 1 for the female set, 0 for the
    male set. *)
Theorem get_gender_labels_space_separated_words (header : list string)
    (rows : list (list string)) :
  head (get_gender (header :: rows)).1
    = Some (map Str header ++ [Str "gender"]) /\
  ((forall row, row ∈ rows -> 5 < length row) ->
   exists body,
     get_gender (header :: rows)
       = ((map Str header ++ [Str "gender"]) :: body, None) /\
     (forall row np, row ∈ rows -> row !! 5 = Some np ->
        ((exists l, map Str row ++ [l] ∈ body) <->
         has_gendered_word (split " " np))) /\
     (forall out, out ∈ body ->
        exists row np w l, row ∈ rows /\ row !! 5 = Some np /\
          last_gendered_word (split " " np) w /\
          out = map Str row ++ [l] /\
          ((w ∈ girls /\ l = Int 1) \/ (w ∈ boys /\ l = Int 0)))).
Proof.
  split.
  - cbn [get_gender]. destruct (label_rows rows). reflexivity.
  - intros Hcols. destruct (label_rows_spec rows Hcols) as (body & E & Hbody).
    exists body. cbn [get_gender]. rewrite E. split; [reflexivity|]. split.
    + intros row np Hrow Hnp. split.
      * intros (l & Hl). apply Hbody in Hl as (r & np' & w & Hr & Hn & Hw & Eq).
        apply app_inj_tail in Eq as [Eq _]. apply map_Str_inj in Eq as ->.
        assert (np' = np) as -> by congruence.
        eapply last_gendered_word_has, Hw.
      * intros Hg. apply has_gendered_word_last in Hg as (w & Hw).
        exists (label_of w). apply Hbody. exists row, np, w. auto.
    + intros out Hout. apply Hbody in Hout as (r & np & w & Hr & Hn & Hw & ->).
      exists r, np, w, (label_of w). repeat (split; [assumption || reflexivity|]).
      unfold label_of. destruct (decide (w ∈ girls)) as [Hgi|Hgi]; [auto|].
      right. split; [|reflexivity].
      destruct Hw as (_ & _ & _ & [Hg|Hg] & _); [contradiction | exact Hg].
Qed.

Lemma get_gender_labels_space_separated_words_witness :
  (forall row, row ∈ [["0"; "1"; "2"; "3"; "4"; "The man and she"; "6"]] ->
               5 < length row) /\
  exists body,
    get_gender [["a"; "b"; "c"; "d"; "e"; "sent2"; "g"];
                ["0"; "1"; "2"; "3"; "4"; "The man and she"; "6"]]
      = ((map Str ["a"; "b"; "c"; "d"; "e"; "sent2"; "g"] ++ [Str "gender"])
           :: body, None) /\
    (forall row np,
        row ∈ [["0"; "1"; "2"; "3"; "4"; "The man and she"; "6"]] ->
        row !! 5 = Some np ->
        ((exists l, map Str row ++ [l] ∈ body) <->
         has_gendered_word (split " " np))) /\
    (forall out, out ∈ body ->
       exists row np w l,
         row ∈ [["0"; "1"; "2"; "3"; "4"; "The man and she"; "6"]] /\
         row !! 5 = Some np /\
         last_gendered_word (split " " np) w /\
         out = map Str row ++ [l] /\
         ((w ∈ girls /\ l = Int 1) \/ (w ∈ boys /\ l = Int 0))).
Proof.
  assert (forall row,
             row ∈ [["0"; "1"; "2"; "3"; "4"; "The man and she"; "6"]] ->
             5 < length row) as Hcols.
  { intros row Hrow. apply list_elem_of_singleton in Hrow as ->. cbn. lia. }
  split; [exact Hcols|].
  apply (proj2 (get_gender_labels_space_separated_words
                  ["a"; "b"; "c"; "d"; "e"; "sent2"; "g"]
                  [["0"; "1"; "2"; "3"; "4"; "The man and she"; "6"]]) Hcols).
Defined.

(** C10 as stated fails on a column 5 whose words are separated by a
    tabulator: ["she"] is one of its white-space separated words, yet the
    script, which splits at spaces only, writes nothing but the header. *)
Lemma tab_separated_word_is_not_labelled :
  has_gendered_word (whitespace_words ("she" +:+ tab +:+ "ran")) /\
  get_gender [["a"; "b"; "c"; "d"; "e"; "sent2"; "g"];
              ["0"; "1"; "2"; "3"; "4"; "she" +:+ tab +:+ "ran"; "6"]]
    = ([map Str ["a"; "b"; "c"; "d"; "e"; "sent2"; "g"] ++ [Str "gender"]],
       None).
Proof.
  split.
  - exists "she". split; [left|]. left.
    apply (bool_decide_unpack _). vm_compute. exact I.
  - vm_compute. reflexivity.
Qed.

(* ===================================================================== *)
(** * Further properties of the code *)
(* ===================================================================== *)

(** ** [_truncate_seq_pair]: what is removed, and from where *)

Lemma removelast_prefix {A} (l : list A) : removelast l `prefix_of` l.
Proof.
  destruct (decide (length l = 0)) as [H0|H0].
  - apply length_zero_iff_nil in H0 as ->. reflexivity.
  - destruct l as [|x l] using rev_ind; [cbn in H0; lia|].
    rewrite removelast_last. now apply prefix_app_r.
Qed.

Lemma truncate_iter_prefixes {A} (a b a' b' : list A) m :
  truncate_iter a b m = Popped a' b' ->
  a' `prefix_of` a /\ b' `prefix_of` b.
Proof.
  intros H. apply truncate_iter_Popped in H as (_ & Hgt & Hle).
  destruct (le_gt_dec (length a) (length b)) as [Hc|Hc].
  - destruct (Hle Hc) as [-> ->]. split; [reflexivity | apply removelast_prefix].
  - destruct (Hgt Hc) as [-> ->]. split; [apply removelast_prefix | reflexivity].
Qed.

(** X1: the call returns exactly when the budget is not negative; on a
    negative budget it raises [IndexError], whatever the sequences. *)
Theorem truncate_returns_iff_budget_nonnegative {A} (tokens_a tokens_b : list A)
    (max_length : Z) :
  ((exists r, _truncate_seq_pair tokens_a tokens_b max_length = Ok r) <->
   (0 <= max_length)%Z) /\
  (forall e, _truncate_seq_pair tokens_a tokens_b max_length = Raise e ->
             e = IndexError /\ (max_length < 0)%Z).
Proof.
  destruct (Z_lt_le_dec max_length 0) as [Hneg|Hpos].
  - rewrite (truncate_negative tokens_a tokens_b max_length Hneg). split.
    + split; [intros (r & H); discriminate | lia].
    + intros e [= <-]. auto.
  - destruct (truncate_total tokens_a tokens_b max_length Hpos)
      as (a' & b' & E & _). rewrite E. split.
    + split; [auto | eauto].
    + intros e H. discriminate.
Qed.

Lemma truncate_prefixes {A} (tokens_a tokens_b a' b' : list A)
    (max_length : Z) :
  _truncate_seq_pair tokens_a tokens_b max_length = Ok (a', b') ->
  a' `prefix_of` tokens_a /\ b' `prefix_of` tokens_b.
Proof.
  revert a' b'. funelim (_truncate_seq_pair tokens_a tokens_b max_length);
    intros x y Hres.
  - injection Hres as <- <-. split; reflexivity.
  - match goal with F : truncate_iter _ _ _ = Popped _ _ |- _ =>
      destruct (truncate_iter_prefixes _ _ _ _ _ F) as [Pa Pb] end.
    destruct (H x y Hres) as [Qa Qb].
    split; etransitivity; eassumption.
  - discriminate.
Qed.

(** X2: tokens are only taken from the ends: each returned sequence is a
    prefix of the sequence passed in. *)
Theorem truncate_keeps_prefixes {A} (tokens_a tokens_b a' b' : list A)
    (max_length : Z) :
  _truncate_seq_pair tokens_a tokens_b max_length = Ok (a', b') ->
  a' `prefix_of` tokens_a /\ b' `prefix_of` tokens_b.
Proof. apply truncate_prefixes. Qed.

Lemma truncate_keeps_prefixes_witness :
  _truncate_seq_pair ["a"; "b"; "c"; "d"; "e"] ["f"; "g"; "h"] 4
    = Ok (["a"; "b"], ["f"; "g"]) /\
  ["a"; "b"] `prefix_of` ["a"; "b"; "c"; "d"; "e"] /\
  ["f"; "g"] `prefix_of` ["f"; "g"; "h"].
Proof.
  split; [reflexivity|].
  apply (truncate_keeps_prefixes ["a"; "b"; "c"; "d"; "e"] ["f"; "g"; "h"]
           ["a"; "b"] ["f"; "g"] 4).
  reflexivity.
Defined.

(** X3: a sequence that takes at most half the budget is never
    shortened, however long the other one is. *)
Theorem truncate_spares_short_sequence {A} (tokens_a tokens_b a' b' : list A)
    (max_length : Z) :
  _truncate_seq_pair tokens_a tokens_b max_length = Ok (a', b') ->
  ((2 * len tokens_a <= max_length)%Z -> a' = tokens_a) /\
  ((2 * len tokens_b <= max_length)%Z -> b' = tokens_b).
Proof.
  revert a' b'. funelim (_truncate_seq_pair tokens_a tokens_b max_length);
    intros x y Hres.
  - injection Hres as <- <-. auto.
  - match goal with F : truncate_iter _ _ _ = Popped _ _ |- _ =>
      pose proof (truncate_iter_Popped _ _ _ _ _ F) as (Htot & Hgt & Hle) end.
    destruct (H x y Hres) as [Qa Qb]. unfold len in *.
    destruct (le_gt_dec (length tokens_a) (length tokens_b)) as [Hc|Hc].
    + destruct (Hle Hc) as [-> ->]. split; [exact Qa | intros; lia].
    + destruct (Hgt Hc) as [-> ->]. split; [intros; lia | exact Qb].
  - discriminate.
Qed.

Lemma truncate_spares_short_sequence_witness :
  _truncate_seq_pair ["a"; "b"] ["c"; "d"; "e"; "f"; "g"; "h"] 5
    = Ok (["a"; "b"], ["c"; "d"; "e"]) /\
  ((2 * len ["a"; "b"] <= 5)%Z -> ["a"; "b"] = ["a"; "b"]) /\
  ((2 * len ["c"; "d"; "e"; "f"; "g"; "h"] <= 5)%Z ->
   ["c"; "d"; "e"] = ["c"; "d"; "e"; "f"; "g"; "h"]).
Proof.
  split; [reflexivity|].
  apply (truncate_spares_short_sequence ["a"; "b"]
           ["c"; "d"; "e"; "f"; "g"; "h"] ["a"; "b"] ["c"; "d"; "e"] 5).
  reflexivity.
Defined.

(** X4: the truncation is balanced: if the first sequence was shortened
    it is still at least as long as the second, and if the second was
    shortened it is at most one token shorter than the first. *)
Theorem truncate_is_balanced {A} (tokens_a tokens_b a' b' : list A)
    (max_length : Z) :
  _truncate_seq_pair tokens_a tokens_b max_length = Ok (a', b') ->
  (length a' < length tokens_a -> length b' <= length a') /\
  (length b' < length tokens_b -> length a' <= length b' + 1).
Proof.
  revert a' b'. funelim (_truncate_seq_pair tokens_a tokens_b max_length);
    intros x y Hres.
  - injection Hres as <- <-. split; intros; lia.
  - match goal with F : truncate_iter _ _ _ = Popped _ _ |- _ =>
      pose proof (truncate_iter_Popped _ _ _ _ _ F) as (_ & Hgt & Hle);
      pose proof (truncate_iter_decreases _ _ _ _ _ F) as Hdec end.
    destruct (H x y Hres) as [Qa Qb].
    destruct (truncate_prefixes _ _ _ _ _ Hres) as [Pa Pb].
    apply prefix_length in Pa, Pb.
    destruct (le_gt_dec (length tokens_a) (length tokens_b)) as [Hc|Hc].
    + destruct (Hle Hc) as [-> ->]. split; [exact Qa|]. intros Hb.
      destruct (decide (length y < length (removelast tokens_b))); lia.
    + destruct (Hgt Hc) as [-> ->]. split; [|exact Qb]. intros Ha.
      destruct (decide (length x < length (removelast tokens_a))); lia.
  - discriminate.
Qed.

Lemma truncate_is_balanced_witness :
  _truncate_seq_pair ["a"; "b"; "c"; "d"; "e"] ["f"; "g"; "h"] 4
    = Ok (["a"; "b"], ["f"; "g"]) /\
  (length ["a"; "b"] < length ["a"; "b"; "c"; "d"; "e"] ->
   length ["f"; "g"] <= length ["a"; "b"]) /\
  (length ["f"; "g"] < length ["f"; "g"; "h"] ->
   length ["a"; "b"] <= length ["f"; "g"] + 1).
Proof.
  split; [reflexivity|].
  apply (truncate_is_balanced ["a"; "b"; "c"; "d"; "e"] ["f"; "g"; "h"]
           ["a"; "b"] ["f"; "g"] 4).
  reflexivity.
Defined.

(** ** [convert_examples_to_features]: what a feature holds *)

Lemma rmap_Ok_Forall2 {A B} (f : A -> result B) xs ys :
  rmap f xs = Ok ys -> Forall2 (fun x y => f x = Ok y) xs ys.
Proof.
  revert ys. induction xs as [|x xs IH]; intros ys; cbn.
  - intros [= <-]. constructor.
  - destruct (f x) as [y|] eqn:Ey; cbn; [|discriminate].
    destruct (rmap f xs) as [ys'|] eqn:Eys; cbn; [|discriminate].
    intros [= <-]. constructor; [exact Ey | now apply IH].
Qed.

Lemma assert_Ok k cond (u : unit) : assert k cond = Ok u -> cond = true.
Proof. destruct cond; [reflexivity | discriminate]. Qed.

Ltac take_assert H k :=
  match type of H with
  | context [assert k ?c] =>
      let E := fresh "A" in
      destruct c eqn:E; cbn [assert mbind result_bind] in H; [|discriminate H]
  end.

(** The tuple [encode_choice] returns, spelled out. *)
Lemma encode_choice_inv tk max_seq_length ctx se ending ct :
  encode_choice tk max_seq_length ctx se ending = Ok ct ->
  exists ctx' end',
    _truncate_seq_pair ctx (se ++ tokenize tk ending) (max_seq_length - 3)
      = Ok (ctx', end') /\
    c_tokens ct = ["[CLS]"] ++ ctx' ++ ["[SEP]"] ++ end' ++ ["[SEP]"] /\
    c_vp_tokens ct = ["[CLS]"] ++ tokenize tk ending ++ ["[SEP]"] /\
    (len (c_tokens ct) <= max_seq_length)%Z /\
    (len (c_vp_tokens ct) <= half max_seq_length)%Z /\
    c_input_ids ct = convert_tokens_to_ids tk (c_tokens ct)
      ++ repeat_z 0%Z (max_seq_length - len (c_tokens ct)) /\
    c_input_mask ct = repeat_z 1%Z (len (c_tokens ct))
      ++ repeat_z 0%Z (max_seq_length - len (c_tokens ct)) /\
    c_segment_ids ct = repeat_z 0%Z (len ctx' + 2)
      ++ repeat_z 1%Z (len end' + 1)
      ++ repeat_z 0%Z (max_seq_length - len (c_tokens ct)) /\
    c_vp_input_ids ct = convert_tokens_to_ids tk (c_vp_tokens ct)
      ++ repeat_z 0%Z (half max_seq_length - len (c_vp_tokens ct)) /\
    c_vp_input_mask ct = repeat_z 1%Z (len (c_vp_tokens ct))
      ++ repeat_z 0%Z (half max_seq_length - len (c_vp_tokens ct)).
Proof.
  unfold encode_choice. intros H.
  destruct (_truncate_seq_pair ctx (se ++ tokenize tk ending)
              (max_seq_length - 3)) as [[ctx' end']|] eqn:E;
    cbn [mbind result_bind] in H; [|discriminate].
  take_assert H 1. take_assert H 2. take_assert H 3.
  take_assert H 4. take_assert H 5.
  injection H as <-. exists ctx', end'.
  cbn [c_tokens c_vp_tokens c_input_ids c_input_mask c_segment_ids
       c_vp_input_ids c_vp_input_mask].
  apply Z.eqb_eq in A, A2.
  split; [reflexivity|]. split; [reflexivity|]. split; [reflexivity|].
  split; [revert A; clear; len_simpl; lia|].
  split; [revert A2; clear; len_simpl; lia|].
  assert (forall X, vocab tk "[CLS]" :: convert_tokens_to_ids tk X
                    = convert_tokens_to_ids tk ("[CLS]" :: X)) as Hf
    by reflexivity.
  rewrite !Hf, !len_convert, <- !app_assoc. repeat split; reflexivity.
Qed.

Lemma convert_Ok_inv examples tk max_seq_length is_training features :
  convert_examples_to_features examples tk max_seq_length is_training
    = Ok features ->
  Forall2 (fun ex f =>
             example_id f = swag_id ex /\ f_label f = label ex /\
             f_protected_attr f = protected_attr ex /\
             f_endings f = endings ex /\
             Forall2 (fun e c =>
                        exists ct,
                          encode_choice tk max_seq_length
                            (tokenize tk (context_sentence ex))
                            (tokenize tk (start_ending ex)) e = Ok ct /\
                          c = stored ct)
                     (endings ex) (choices_features f))
          examples features.
Proof.
  unfold convert_examples_to_features. intros H.
  apply rmap_Ok_Forall2 in H.
  induction H as [|ex f exs fs Hex _ IH]; constructor; [|exact IH].
  unfold encode_example in Hex.
  destruct (rmap _ (endings ex)) as [cts|] eqn:E;
    cbn [mbind result_bind] in Hex; [|discriminate].
  injection Hex as <-. cbn [example_id f_label f_protected_attr f_endings
                            choices_features new_InputFeatures].
  repeat (split; [reflexivity|]).
  apply rmap_Ok_Forall2 in E. clear -E.
  induction E as [|e ct es cts He _ IH]; cbn [map]; constructor; eauto.
Qed.

(** X5: the features come in the order of the examples, and each carries
    its example's id, gold label, protected attribute and ending texts
    unchanged. *)
Theorem features_carry_example_data (examples : list SwagExample)
    (tk : tokenizer) (max_seq_length : Z) (is_training : bool)
    (features : list InputFeatures) :
  convert_examples_to_features examples tk max_seq_length is_training
    = Ok features ->
  Forall2 (fun ex f =>
             example_id f = swag_id ex /\ f_label f = label ex /\
             f_protected_attr f = protected_attr ex /\
             f_endings f = endings ex)
          examples features.
Proof.
  intros H. apply convert_Ok_inv in H.
  induction H as [|ex f exs fs (H1 & H2 & H3 & H4 & _) _ IH]; constructor; auto.
Qed.

Lemma features_carry_example_data_witness :
  exists features,
    convert_examples_to_features [toy_example] toy_tokenizer 16 true
      = Ok features /\
    Forall2 (fun ex f =>
               example_id f = swag_id ex /\ f_label f = label ex /\
               f_protected_attr f = protected_attr ex /\
               f_endings f = endings ex)
            [toy_example] features.
Proof.
  destruct (convert_examples_to_features [toy_example] toy_tokenizer 16 true)
    as [fs|e] eqn:E.
  - exists fs. split; [reflexivity|].
    apply (features_carry_example_data [toy_example] toy_tokenizer 16 true fs E).
  - vm_compute in E. discriminate E.
Defined.

Ltac length_list :=
  repeat (progress cbn [length app] || rewrite length_app
          || rewrite length_replicate || rewrite length_map); try lia.

Lemma repeat_z_sub {A} (x : A) (total : Z) (n : nat) :
  repeat_z x (total - Z.of_nat n) = replicate (Z.to_nat total - n) x.
Proof. unfold repeat_z. f_equal. lia. Qed.

Lemma repeat_z_of_nat {A} (x : A) (n : nat) :
  repeat_z x (Z.of_nat n) = replicate n x.
Proof. unfold repeat_z. f_equal. lia. Qed.

(** The padding of one stored choice. *)
Lemma stored_choice_zero_padded tk max_seq_length ctx se ending ct :
  encode_choice tk max_seq_length ctx se ending = Ok ct ->
  exists n k,
    3 <= n /\ 2 <= k /\
    zero_padded n (Z.to_nat max_seq_length)
      (input_ids (stored ct)) (input_mask (stored ct)) /\
    drop n (segment_ids (stored ct))
      = replicate (Z.to_nat max_seq_length - n) 0%Z /\
    zero_padded k (Z.to_nat (max_seq_length / 2))
      (vp_input_ids (stored ct)) (vp_input_mask (stored ct)).
Proof.
  intros H.
  destruct (encode_choice_inv _ _ _ _ _ _ H)
    as (ctx' & end' & _ & Et & Ev & Hn & Hk & Ei & Em & Es & Evi & Evm).
  assert (3 <= length (c_tokens ct)) as Hn3.
  { rewrite Et. length_list. }
  assert (2 <= length (c_vp_tokens ct)) as Hk2.
  { rewrite Ev. length_list. }
  assert (0 <= max_seq_length)%Z as Hm by (unfold len in Hn; lia).
  rewrite (half_div _ Hm) in *.
  exists (length (c_tokens ct)), (length (c_vp_tokens ct)).
  cbn [stored input_ids input_mask segment_ids vp_input_ids vp_input_mask].
  unfold len in *.
  split; [exact Hn3|]. split; [exact Hk2|]. split; [|split].
  - unfold zero_padded. rewrite Ei, Em.
    rewrite repeat_z_sub, repeat_z_of_nat.
    split; [lia|]. split.
    + rewrite length_app, length_replicate.
      unfold convert_tokens_to_ids. rewrite length_map. lia.
    + split; [|reflexivity].
      rewrite drop_app_length'; [reflexivity|].
      unfold convert_tokens_to_ids. now rewrite length_map.
  - rewrite Es, repeat_z_sub, app_assoc.
    rewrite drop_app_length'; [reflexivity|].
    unfold repeat_z. rewrite Et. length_list.
  - unfold zero_padded. rewrite Evi, Evm.
    rewrite repeat_z_sub, repeat_z_of_nat.
    split; [lia|]. split.
    + rewrite length_app, length_replicate.
      unfold convert_tokens_to_ids. rewrite length_map. lia.
    + split; [|reflexivity].
      rewrite drop_app_length'; [reflexivity|].
      unfold convert_tokens_to_ids. now rewrite length_map.
Qed.

(** X6: in every stored choice the mask is 1 on the real tokens and 0
    after them, and the ids and the segment ids are 0 on every padded
    position, in the full sequence (at least the three markers) and in
    the VP sequence (at least its two markers). *)
Theorem features_are_zero_padded (examples : list SwagExample)
    (tk : tokenizer) (max_seq_length : Z) (is_training : bool)
    (features : list InputFeatures) :
  convert_examples_to_features examples tk max_seq_length is_training
    = Ok features ->
  Forall (fun f =>
            Forall (fun c =>
                      exists n k,
                        3 <= n /\ 2 <= k /\
                        zero_padded n (Z.to_nat max_seq_length)
                          (input_ids c) (input_mask c) /\
                        drop n (segment_ids c)
                          = replicate (Z.to_nat max_seq_length - n) 0%Z /\
                        zero_padded k (Z.to_nat (max_seq_length / 2))
                          (vp_input_ids c) (vp_input_mask c))
                   (choices_features f))
         features.
Proof.
  intros H. apply convert_Ok_inv in H.
  induction H as [|ex f exs fs (_ & _ & _ & _ & Hc) _ IH]; constructor;
    [|exact IH].
  clear IH. induction Hc as [|e c es cs (ct & Ect & ->) _ IH]; constructor;
    [|exact IH].
  eapply stored_choice_zero_padded, Ect.
Qed.

Lemma features_are_zero_padded_witness :
  exists features,
    convert_examples_to_features [toy_example] toy_tokenizer 16 true
      = Ok features /\
    Forall (fun f =>
              Forall (fun c =>
                        exists n k,
                          3 <= n /\ 2 <= k /\
                          zero_padded n (Z.to_nat 16)
                            (input_ids c) (input_mask c) /\
                          drop n (segment_ids c)
                            = replicate (Z.to_nat 16 - n) 0%Z /\
                          zero_padded k (Z.to_nat (16 / 2))
                            (vp_input_ids c) (vp_input_mask c))
                     (choices_features f))
           features.
Proof.
  destruct (convert_examples_to_features [toy_example] toy_tokenizer 16 true)
    as [fs|e] eqn:E.
  - exists fs. split; [reflexivity|].
    apply (features_are_zero_padded [toy_example] toy_tokenizer 16 true fs E).
  - vm_compute in E. discriminate E.
Defined.

(** X7: when context, shared prefix and ending fit into the sequence
    together with the three markers, nothing is truncated: the ids are
    those of [CLS] context [SEP] prefix ending [SEP], and the segment
    ids are 0 up to the first [SEP] and 1 up to the second, both
    followed by the padding. *)
Theorem short_inputs_are_encoded_in_full (examples : list SwagExample)
    (tk : tokenizer) (max_seq_length : Z) (is_training : bool)
    (features : list InputFeatures) :
  convert_examples_to_features examples tk max_seq_length is_training
    = Ok features ->
  Forall2 (fun ex f =>
    Forall2 (fun e c =>
      let ctx := tokenize tk (context_sentence ex) in
      let span := tokenize tk (start_ending ex) ++ tokenize tk e in
      (len ctx + len span + 3 <= max_seq_length)%Z ->
      input_ids c =
        convert_tokens_to_ids tk
          (["[CLS]"] ++ ctx ++ ["[SEP]"] ++ span ++ ["[SEP]"])
        ++ repeat_z 0%Z (max_seq_length - (len ctx + len span + 3)) /\
      segment_ids c =
        repeat_z 0%Z (len ctx + 2) ++ repeat_z 1%Z (len span + 1)
        ++ repeat_z 0%Z (max_seq_length - (len ctx + len span + 3)))
      (endings ex) (choices_features f))
    examples features.
Proof.
  intros H. apply convert_Ok_inv in H.
  induction H as [|ex f exs fs (_ & _ & _ & _ & Hc) _ IH]; constructor;
    [|exact IH].
  clear IH. induction Hc as [|e c es cs (ct & Ect & ->) _ IH]; constructor;
    [|exact IH].
  cbn zeta. intros Hfit.
  destruct (encode_choice_inv _ _ _ _ _ _ Ect)
    as (ctx' & end' & Et & Etok & _ & _ & _ & Ei & _ & Es & _).
  destruct (truncate_total (tokenize tk (context_sentence ex))
              (tokenize tk (start_ending ex) ++ tokenize tk e)
              (max_seq_length - 3)) as (a & b & Et' & _ & Hle);
    [pose proof (len_nonneg (tokenize tk (context_sentence ex)));
     pose proof (len_nonneg (tokenize tk (start_ending ex) ++ tokenize tk e));
     lia|].
  rewrite Et in Et'. injection Et' as <- <-.
  destruct Hle as [-> ->]; [lia|].
  cbn [stored input_ids segment_ids]. rewrite Ei, Es, Etok.
  assert (len (["[CLS]"] ++ tokenize tk (context_sentence ex) ++ ["[SEP]"]
               ++ (tokenize tk (start_ending ex) ++ tokenize tk e) ++ ["[SEP]"])
          = (len (tokenize tk (context_sentence ex))
             + len (tokenize tk (start_ending ex) ++ tokenize tk e) + 3)%Z)
    as ->.
  { unfold len. length_list. }
  split; reflexivity.
Qed.

Lemma short_inputs_are_encoded_in_full_witness :
  exists features,
    convert_examples_to_features [toy_example] toy_tokenizer 16 true
      = Ok features /\
    Forall2 (fun ex f =>
      Forall2 (fun e c =>
        let ctx := tokenize toy_tokenizer (context_sentence ex) in
        let span := tokenize toy_tokenizer (start_ending ex)
                      ++ tokenize toy_tokenizer e in
        (len ctx + len span + 3 <= 16)%Z ->
        input_ids c =
          convert_tokens_to_ids toy_tokenizer
            (["[CLS]"] ++ ctx ++ ["[SEP]"] ++ span ++ ["[SEP]"])
          ++ repeat_z 0%Z (16 - (len ctx + len span + 3)) /\
        segment_ids c =
          repeat_z 0%Z (len ctx + 2) ++ repeat_z 1%Z (len span + 1)
          ++ repeat_z 0%Z (16 - (len ctx + len span + 3)))
        (endings ex) (choices_features f))
      [toy_example] features.
Proof.
  destruct (convert_examples_to_features [toy_example] toy_tokenizer 16 true)
    as [fs|e] eqn:E.
  - exists fs. split; [reflexivity|].
    apply (short_inputs_are_encoded_in_full
             [toy_example] toy_tokenizer 16 true fs E).
  - vm_compute in E. discriminate E.
Defined.

(** X8: with fewer than three positions there is no room for the three
    markers: on any example the encoder stops in [_truncate_seq_pair]
    with [IndexError], before an assertion is reached. *)
Theorem encoder_needs_three_positions (examples : list SwagExample)
    (tk : tokenizer) (max_seq_length : Z) (is_training : bool) :
  (max_seq_length < 3)%Z -> examples <> [] ->
  convert_examples_to_features examples tk max_seq_length is_training
    = Raise IndexError.
Proof.
  intros Hm Hne. destruct examples as [|ex exs]; [contradiction|].
  unfold convert_examples_to_features. cbn [rmap].
  now rewrite encode_example_small.
Qed.

Lemma encoder_needs_three_positions_witness :
  (2 < 3)%Z /\ [toy_example] <> [] /\
  convert_examples_to_features [toy_example] toy_tokenizer 2 true
    = Raise IndexError.
Proof.
  assert ([toy_example] <> []) as Hne by discriminate.
  split; [lia|]. split; [exact Hne|].
  apply (encoder_needs_three_positions [toy_example] toy_tokenizer 2 true);
    [lia | exact Hne].
Defined.

(** ** [read_swag_examples]: what is read, and how far *)

Ltac ok_bind H E :=
  match type of H with
  | (?m ≫= _) = Ok _ =>
      destruct m eqn:E; cbn [mbind result_bind] in H; [|discriminate H]
  end.

Lemma index_Ok {A} (l : list A) i x : index l i = Ok x <-> l !! i = Some x.
Proof.
  unfold index. destruct (l !! i); split; intros H; try discriminate;
    congruence.
Qed.

Lemma py_int_Ok int c z : py_int int c = Ok z <-> int c = Some z.
Proof.
  unfold py_int. destruct (int c); split; intros H; try discriminate;
    congruence.
Qed.

Lemma int_cell_Ok int (line : list string) i o :
  (c ← index line i; z ← py_int int c; Ok (Some z)) = Ok o ->
  exists c z, line !! i = Some c /\ int c = Some z /\ o = Some z.
Proof.
  intros H. ok_bind H Ec. ok_bind H Ez. injection H as <-.
  apply index_Ok in Ec. apply py_int_Ok in Ez. eauto.
Qed.

Lemma example_of_line_training int line ex :
  example_of_line int true line = Ok ex <-> training_row int line ex.
Proof.
  unfold example_of_line, training_row. split.
  - intros H. ok_bind H E2. ok_bind H E4. ok_bind H E5. ok_bind H E7.
    ok_bind H E8. ok_bind H E9. ok_bind H E10. ok_bind H E11. ok_bind H E12.
    injection H as <-. cbn.
    apply index_Ok in E2, E4, E5, E7, E8, E9, E10.
    apply int_cell_Ok in E11 as (c11 & z11 & ? & ? & ->).
    apply int_cell_Ok in E12 as (c12 & z12 & ? & ? & ->).
    repeat (split; [assumption|]). split; eauto.
  - intros (H2 & H4 & H5 & H7 & H8 & H9 & H10 &
            (c11 & z11 & H11 & I11 & L11) & (c12 & z12 & H12 & I12 & L12)).
    apply index_Ok in H2, H4, H5, H7, H8, H9, H10, H11, H12.
    apply py_int_Ok in I11, I12.
    rewrite H2, H4, H5, H7, H8, H9, H10, H11, H12. cbn [mbind result_bind].
    rewrite I11. cbn [mbind result_bind]. rewrite I12. cbn [mbind result_bind].
    destruct ex. cbn in *. congruence.
Qed.

Lemma construct_examples_Ok int is_training lines n n' exs :
  construct_examples int is_training lines n = (n', Ok exs) <->
  n' = n + length lines /\
  Forall2 (fun line ex => example_of_line int is_training line = Ok ex)
          lines exs.
Proof.
  revert n n' exs. induction lines as [|line rest IH]; intros n n' exs; cbn.
  - split.
    + intros [= <- <-]. split; [lia | constructor].
    + intros [-> H]. inversion H. f_equal. lia.
  - destruct (example_of_line int is_training line) as [ex|e] eqn:E.
    + destruct (construct_examples int is_training rest (S n)) as [m r] eqn:Er.
      split.
      * intros [= <- Hr]. destruct r as [exs'|]; cbn in Hr; [|discriminate].
        injection Hr as <-. apply IH in Er as [-> HF].
        split; [lia | now constructor].
      * intros [-> HF]. inversion HF as [|? ex' ? exs' Hex Hrest]; subst.
        assert (ex' = ex) as -> by congruence.
        assert (construct_examples int is_training rest (S n)
                = (S n + length rest, Ok exs')) as Er'
          by (apply IH; auto).
        rewrite Er in Er'. injection Er' as -> ->. cbn. f_equal. lia.
    + split; [discriminate|]. intros [_ HF]. inversion HF; congruence.
Qed.

Lemma read_training_rows (int : string -> option Z)
    (header : list string) (rows : list (list string)) (n : nat)
    (examples : list SwagExample) :
  read_swag_examples int (header :: rows) true = (n, Ok examples) <->
  "label" ∈ header /\ n = length rows /\
  Forall2 (training_row int) rows examples.
Proof.
  unfold read_swag_examples. cbn [index lookup list_lookup mbind result_bind drop].
  case_bool_decide as Hl.
  - split; [discriminate | intros [? _]; contradiction].
  - rewrite construct_examples_Ok. cbn [Nat.add]. split.
    + intros [-> HF]. split; [now apply dec_stable|]. split; [reflexivity|].
      eapply Forall2_impl; [exact HF|]. intros l ex. apply example_of_line_training.
    + intros (_ & -> & HF). split; [reflexivity|].
      eapply Forall2_impl; [exact HF|]. intros l ex. apply example_of_line_training.
Qed.

(** X9: in training mode the reader returns exactly when the header has
    a ['label'] cell and every data row holds the cells of an example;
    it then returns one example per data row, in order, the header
    skipped, and has constructed as many examples as there are rows. *)
Theorem read_swag_examples_training_rows (int : string -> option Z)
    (header : list string) (rows : list (list string)) (n : nat)
    (examples : list SwagExample) :
  read_swag_examples int (header :: rows) true = (n, Ok examples) <->
  "label" ∈ header /\ n = length rows /\
  Forall2 (training_row int) rows examples.
Proof. apply read_training_rows. Qed.

Lemma construct_examples_first_failure int is_training pre bad post n e :
  Forall (fun line => exists ex, example_of_line int is_training line = Ok ex)
         pre ->
  example_of_line int is_training bad = Raise e ->
  construct_examples int is_training (pre ++ bad :: post) n
    = (n + length pre, Raise e).
Proof.
  intros Hpre Hbad. revert n.
  induction Hpre as [|line pre (ex & Hex) _ IH]; intros n; cbn.
  - rewrite Hbad. f_equal. lia.
  - rewrite Hex, IH. cbn. f_equal. lia.
Qed.

(** X10: a data row that cannot be read (a missing cell, or a label
    that is no integer) stops the reader there: the rows after it are
    not looked at, and the examples constructed are exactly those of the
    rows before it. *)
Theorem read_swag_examples_stops_at_first_bad_row (int : string -> option Z)
    (is_training : bool) (header : list string)
    (pre post : list (list string)) (bad : list string) (e : exn) :
  (is_training = true -> "label" ∈ header) ->
  Forall (fun line => exists ex, example_of_line int is_training line = Ok ex)
         pre ->
  example_of_line int is_training bad = Raise e ->
  read_swag_examples int (header :: pre ++ bad :: post) is_training
    = (length pre, Raise e) /\
  (e = IndexError \/ e = invalid_literal).
Proof.
  intros Hl Hpre Hbad. split; [|eapply example_of_line_Raise, Hbad].
  unfold read_swag_examples.
  destruct is_training;
    cbn [index lookup list_lookup mbind result_bind drop].
  - rewrite bool_decide_eq_false_2 by (intros Hn; apply Hn, Hl; reflexivity).
    rewrite drop_0.
    now rewrite (construct_examples_first_failure _ _ _ _ _ _ e Hpre Hbad).
  - rewrite ?drop_0.
    now rewrite (construct_examples_first_failure _ _ _ _ _ _ e Hpre Hbad).
Qed.

Lemma read_swag_examples_stops_at_first_bad_row_witness :
  (true = true -> "label" ∈ ["a"; "label"]) /\
  Forall (fun line =>
            exists ex, example_of_line (fun _ => Some 1%Z) true line = Ok ex)
         [["0"; "1"; "2"; "3"; "4"; "5"; "6"; "7"; "8"; "9"; "10"; "11"; "12"]] /\
  example_of_line (fun _ => Some 1%Z) true ["0"; "1"; "2"] = Raise IndexError /\
  read_swag_examples (fun _ => Some 1%Z)
    (["a"; "label"]
       :: [["0"; "1"; "2"; "3"; "4"; "5"; "6"; "7"; "8"; "9"; "10"; "11"; "12"]]
       ++ ["0"; "1"; "2"] :: [["x"]]) true
    = (length
         [["0"; "1"; "2"; "3"; "4"; "5"; "6"; "7"; "8"; "9"; "10"; "11"; "12"]],
       Raise IndexError) /\
  (IndexError = IndexError \/ IndexError = invalid_literal).
Proof.
  assert (true = true -> "label" ∈ ["a"; "label"]) as H1
    by (intros _; right; left).
  assert (Forall (fun line =>
            exists ex, example_of_line (fun _ => Some 1%Z) true line = Ok ex)
         [["0"; "1"; "2"; "3"; "4"; "5"; "6"; "7"; "8"; "9"; "10"; "11"; "12"]])
    as H2 by (repeat constructor; eexists; reflexivity).
  assert (example_of_line (fun _ => Some 1%Z) true ["0"; "1"; "2"]
          = Raise IndexError) as H3 by reflexivity.
  split; [exact H1|]. split; [exact H2|]. split; [exact H3|].
  apply (read_swag_examples_stops_at_first_bad_row (fun _ => Some 1%Z) true
           ["a"; "label"] _ [["x"]] ["0"; "1"; "2"] IndexError H1 H2 H3).
Defined.

Lemma example_of_line_eval int line :
  (forall e, example_of_line int false line = Raise e -> e = IndexError) /\
  (forall ex, example_of_line int false line = Ok ex ->
              label ex = None /\ protected_attr ex = None).
Proof.
  unfold example_of_line.
  repeat match goal with
         | |- context [index line ?i] =>
             let E := fresh "E" in
             destruct (index line i) eqn:E; cbn [mbind result_bind];
             [|split; [intros e' [= <-]; eapply index_Raise, E | discriminate]]
         end.
  split; [discriminate|]. intros ex [= <-]. cbn. auto.
Qed.

(** X11: in evaluation mode ([is_training] false) the header is not
    inspected and no cell is converted: the only exception is the
    [IndexError] of a data row with fewer than 11 cells, a file without
    any row gives no example, and the examples returned, one per data
    row, have neither label nor protected attribute. *)
Theorem read_swag_examples_without_labels (int : string -> option Z)
    (lines : list (list string)) :
  (forall e, (read_swag_examples int lines false).2 = Raise e ->
             e = IndexError) /\
  (forall examples,
      (read_swag_examples int lines false).2 = Ok examples ->
      (read_swag_examples int lines false).1 = length examples /\
      length examples = length lines - 1 /\
      Forall (fun ex => label ex = None /\ protected_attr ex = None)
             examples) /\
  read_swag_examples int [] false = (0, Ok []).
Proof.
  unfold read_swag_examples. cbv beta iota zeta.
  split; [|split; [|reflexivity]].
  - generalize (drop 1 lines). intros rows. generalize 0.
    induction rows as [|line rows IH]; intros n e; cbn; [discriminate|].
    destruct (example_of_line int false line) as [ex|e'] eqn:E.
    + specialize (IH (S n) e).
      destruct (construct_examples int false rows (S n)) as [m r].
      cbn in *. destruct r; cbn; [discriminate | exact IH].
    + cbn. intros [= <-]. eapply (proj1 (example_of_line_eval int line)), E.
  - intros exs H.
    destruct (construct_examples int false (drop 1 lines) 0) as [m r] eqn:E.
    cbn in H. subst r. apply construct_examples_Ok in E as [-> HF].
    pose proof (Forall2_length _ _ _ HF) as Hlen.
    cbn [fst]. rewrite length_drop in *. split; [lia|]. split; [lia|].
    clear Hlen. induction HF as [|l ex ls exs' Hex _ IH]; constructor; auto.
    eapply (proj2 (example_of_line_eval int l)), Hex.
Qed.

(** ** [select_field]: stacking the features into tensors *)

Lemma convert_Ok_fixed_lengths examples tk max_seq_length is_training
    features :
  convert_examples_to_features examples tk max_seq_length is_training
    = Ok features ->
  Forall (fun f =>
            length (choices_features f) = 4 /\
            Forall (fixed_lengths max_seq_length) (choices_features f))
         features.
Proof.
  intros E.
  assert (forall ex, ex ∈ examples -> endings_fit tk max_seq_length ex) as Hfit.
  { intros ex Hex. unfold convert_examples_to_features in E.
    destruct (rmap_Ok_elem _ _ _ _ E Hex) as (f & Ef & _).
    eapply encode_example_Ok_fit, Ef. }
  destruct (convert_ok examples tk max_seq_length is_training Hfit)
    as (fs & E' & H).
  assert (fs = features) as -> by congruence.
  clear -H. induction H as [|ex f exs fs (H4 & Hl & _) _ IH]; constructor; auto.
Qed.

Lemma select_field_shape (features : list InputFeatures) (field : string)
    (get : choice_features -> list Z) (C L : nat) :
  (forall c, choice_get c field = Some (get c)) ->
  Forall (fun f =>
            length (choices_features f) = C /\
            Forall (fun c => length (get c) = L) (choices_features f))
         features ->
  exists t, select_field features field = Some t /\
            shape3 (length features) C L t.
Proof.
  intros Hget H. unfold select_field.
  exists (map (fun f => map get (choices_features f)) features). split.
  - apply mapM_Some. clear H.
    induction features as [|f fs IH]; cbn [map]; constructor; [|exact IH].
    apply mapM_Some. induction (choices_features f) as [|c cs IHc]; cbn [map];
      constructor; auto.
  - split; [now rewrite length_map|].
    induction H as [|f fs [HC HL] _ IH]; cbn [map]; constructor; [|exact IH].
    split; [now rewrite length_map|].
    clear HC. induction HL; cbn [map]; constructor; auto.
Qed.

Lemma fixed_lengths_nat max_seq_length c :
  fixed_lengths max_seq_length c ->
  length (input_ids c) = Z.to_nat max_seq_length /\
  length (input_mask c) = Z.to_nat max_seq_length /\
  length (segment_ids c) = Z.to_nat max_seq_length /\
  length (vp_input_ids c) = Z.to_nat (max_seq_length / 2) /\
  length (vp_input_mask c) = Z.to_nat (max_seq_length / 2).
Proof. unfold fixed_lengths, len. intros (?&?&?&?&?). repeat split; lia. Qed.

Lemma stacked_shapes (examples : list SwagExample) (tk : tokenizer)
    (max_seq_length : Z) (is_training : bool)
    (features batch : list InputFeatures) :
  convert_examples_to_features examples tk max_seq_length is_training
    = Ok features ->
  (forall f, f ∈ batch -> f ∈ features) ->
  (forall field, field ∈ ["input_ids"; "input_mask"; "segment_ids"] ->
     exists t, select_field batch field = Some t /\
       shape3 (length batch) 4 (Z.to_nat max_seq_length) t) /\
  (forall field, field ∈ ["vp_input_ids"; "vp_input_mask"] ->
     exists t, select_field batch field = Some t /\
       shape3 (length batch) 4 (Z.to_nat (max_seq_length / 2)) t).
Proof.
  intros E Hsub. apply convert_Ok_fixed_lengths in E.
  assert (Forall (fun f =>
            length (choices_features f) = 4 /\
            Forall (fun c =>
                      length (input_ids c) = Z.to_nat max_seq_length /\
                      length (input_mask c) = Z.to_nat max_seq_length /\
                      length (segment_ids c) = Z.to_nat max_seq_length /\
                      length (vp_input_ids c) = Z.to_nat (max_seq_length / 2) /\
                      length (vp_input_mask c) = Z.to_nat (max_seq_length / 2))
                   (choices_features f)) batch) as H.
  { apply Forall_forall. intros f Hf.
    eapply Forall_forall in E as [H4 Hl]; [|apply Hsub, Hf].
    split; [exact H4|]. eapply Forall_impl; [exact Hl|].
    intros c. apply fixed_lengths_nat. }
  split; intros field Hfield;
    repeat (apply elem_of_cons in Hfield as [-> | Hfield]);
    try (now inversion Hfield).
  - apply (select_field_shape batch _ input_ids); [reflexivity|].
    eapply Forall_impl; [exact H|]. intros f [H4 Hl]. split; [exact H4|].
    eapply Forall_impl; [exact Hl|]. intros c Hc. apply Hc.
  - apply (select_field_shape batch _ input_mask); [reflexivity|].
    eapply Forall_impl; [exact H|]. intros f [H4 Hl]. split; [exact H4|].
    eapply Forall_impl; [exact Hl|]. intros c Hc. apply Hc.
  - apply (select_field_shape batch _ segment_ids); [reflexivity|].
    eapply Forall_impl; [exact H|]. intros f [H4 Hl]. split; [exact H4|].
    eapply Forall_impl; [exact Hl|]. intros c Hc. apply Hc.
  - apply (select_field_shape batch _ vp_input_ids); [reflexivity|].
    eapply Forall_impl; [exact H|]. intros f [H4 Hl]. split; [exact H4|].
    eapply Forall_impl; [exact Hl|]. intros c Hc. apply Hc.
  - apply (select_field_shape batch _ vp_input_mask); [reflexivity|].
    eapply Forall_impl; [exact H|]. intros f [H4 Hl]. split; [exact H4|].
    eapply Forall_impl; [exact Hl|]. intros c Hc. apply Hc.
Qed.

(** X12: every batch of features the encoder returned stacks into
    tensors: the three full-sequence fields have the shape
    [B, 4, max_seq_length] and the two VP fields the shape
    [B, 4, max_seq_length // 2]. *)
Theorem encoder_output_stacks (examples : list SwagExample) (tk : tokenizer)
    (max_seq_length : Z) (is_training : bool)
    (features batch : list InputFeatures) :
  convert_examples_to_features examples tk max_seq_length is_training
    = Ok features ->
  (forall f, f ∈ batch -> f ∈ features) ->
  (forall field, field ∈ ["input_ids"; "input_mask"; "segment_ids"] ->
     exists t, select_field batch field = Some t /\
       shape3 (length batch) 4 (Z.to_nat max_seq_length) t) /\
  (forall field, field ∈ ["vp_input_ids"; "vp_input_mask"] ->
     exists t, select_field batch field = Some t /\
       shape3 (length batch) 4 (Z.to_nat (max_seq_length / 2)) t).
Proof. apply stacked_shapes. Qed.

Lemma encoder_output_stacks_witness :
  exists features,
    convert_examples_to_features [toy_example] toy_tokenizer 16 true
      = Ok features /\
    (forall f, f ∈ features -> f ∈ features) /\
    (forall field, field ∈ ["input_ids"; "input_mask"; "segment_ids"] ->
       exists t, select_field features field = Some t /\
         shape3 (length features) 4 (Z.to_nat 16) t) /\
    (forall field, field ∈ ["vp_input_ids"; "vp_input_mask"] ->
       exists t, select_field features field = Some t /\
         shape3 (length features) 4 (Z.to_nat (16 / 2)) t).
Proof.
  destruct (convert_examples_to_features [toy_example] toy_tokenizer 16 true)
    as [fs|e] eqn:E.
  - exists fs. split; [reflexivity|]. split; [auto|].
    apply (encoder_output_stacks [toy_example] toy_tokenizer 16 true fs fs E).
    auto.
  - vm_compute in E. discriminate E.
Defined.

Lemma choice_get_unknown (c : choice_features) (field : string) :
  (field ∉ ["input_ids"; "input_mask"; "segment_ids"; "vp_input_ids";
            "vp_input_mask"]) ->
  choice_get c field = None.
Proof.
  intros H. unfold choice_get.
  repeat match goal with
         | |- context [String.eqb field ?k] =>
             destruct (String.eqb_spec field k) as [->|_];
             [exfalso; apply H; set_solver|]
         end.
  reflexivity.
Qed.

(** X13: a key that [InputFeatures] does not keep (such as ['tokens'],
    which the encoder computes but the feature drops) cannot be
    selected: on any batch of encoded features that is not empty
    [select_field] fails with [KeyError]; on an empty batch it returns
    the empty list. *)
Theorem select_field_unknown_key (examples : list SwagExample)
    (tk : tokenizer) (max_seq_length : Z) (is_training : bool)
    (features : list InputFeatures) (field : string) :
  convert_examples_to_features examples tk max_seq_length is_training
    = Ok features ->
  (field ∉ ["input_ids"; "input_mask"; "segment_ids"; "vp_input_ids";
            "vp_input_mask"]) ->
  (features <> [] -> select_field features field = None) /\
  select_field [] field = Some [].
Proof.
  intros E Hfield. split; [|reflexivity].
  apply convert_Ok_fixed_lengths in E.
  destruct features as [|f fs]; [contradiction|]. intros _.
  apply Forall_cons in E as [[H4 _] _].
  destruct (choices_features f) as [|c cs] eqn:Ec; [discriminate|].
  unfold select_field. cbn [mapM]. rewrite Ec. cbn [mapM].
  now rewrite (choice_get_unknown c field Hfield).
Qed.

Lemma select_field_unknown_key_witness :
  exists features,
    convert_examples_to_features [toy_example] toy_tokenizer 16 true
      = Ok features /\
    ("tokens" ∉ ["input_ids"; "input_mask"; "segment_ids"; "vp_input_ids";
                 "vp_input_mask"]) /\
    (features <> [] -> select_field features "tokens" = None) /\
    select_field [] "tokens" = Some [].
Proof.
  assert ("tokens" ∉ ["input_ids"; "input_mask"; "segment_ids";
                      "vp_input_ids"; "vp_input_mask"]) as Hk.
  { intros H. repeat (apply elem_of_cons in H as [H|H]; [discriminate H|]).
    inversion H. }
  destruct (convert_examples_to_features [toy_example] toy_tokenizer 16 true)
    as [fs|e] eqn:E.
  - exists fs. split; [reflexivity|]. split; [exact Hk|].
    apply (select_field_unknown_key [toy_example] toy_tokenizer 16 true
             fs "tokens" E Hk).
  - vm_compute in E. discriminate E.
Defined.

(** ** The two selections of the VP slice *)

Lemma zip_with_cons_drop {A} (cs : list A) (ss : list (list A)) :
  length cs = length ss ->
  map (drop 1) (zip_with cons cs ss) = ss /\
  Forall2 (fun row s => length row = S (length s)) (zip_with cons cs ss) ss.
Proof.
  revert ss. induction cs as [|c cs IH]; intros [|s ss] Hlen;
    cbn in *; try discriminate; [split; [reflexivity | constructor]|].
  destruct (IH ss) as [E F]; [lia|]. rewrite drop_0. rewrite E.
  split; [reflexivity | constructor; [reflexivity | exact F]].
Qed.

Lemma rows_one_longer {A} (rows ss : list (list A)) (L : nat) :
  Forall2 (fun row s => length row = S (length s)) rows ss ->
  Forall (fun s => length s = L) ss ->
  Forall (fun row => length row = S L) rows.
Proof.
  intros F. induction F as [|row s rows ss Hr _ IH]; intros HL; constructor.
  - apply Forall_cons in HL as [<- _]. exact Hr.
  - apply IH. now apply Forall_cons in HL as [_ ?].
Qed.

Lemma selections_agree (B C L : nat)
    (logits : list (list R))
    (batch_vp_input_ids batch_vp_input_mask : list (list (list Z))) :
  0 < C ->
  shape2 B C logits ->
  shape3 B C L batch_vp_input_ids ->
  shape3 B C L batch_vp_input_mask ->
  exists train_ids train_mask eval_ids eval_mask,
    train_select logits batch_vp_input_ids batch_vp_input_mask
      = Ok (train_ids, train_mask) /\
    eval_select logits batch_vp_input_ids batch_vp_input_mask
      = Ok (eval_ids, eval_mask) /\
    map (drop 1) train_ids = eval_ids /\
    map (drop 1) train_mask = eval_mask /\
    Forall (fun row => length row = S L) train_ids /\
    Forall (fun row => length row = S L) train_mask /\
    Forall (fun row => length row = L) eval_ids /\
    Forall (fun row => length row = L) eval_mask.
Proof.
  intros HC Hlog Hids Hmask.
  destruct (train_select_slices B C L logits _ _ HC Hlog Hids Hmask)
    as (ms & ps & Emax & Hps & Et).
  destruct (eval_select_slices B C L logits _ _ HC Hlog Hids Hmask)
    as (qs & Hqs & Ee & Li & Lm).
  assert (qs = ps) as -> by (eapply is_argmax_Forall2_unique; eauto).
  destruct (is_argmax_in_range B C logits ps Hlog Hps) as [Hlen _].
  assert (length ms = B) as Hms.
  { unfold max_dim1 in Emax.
    destruct (rmap row_max logits) as [rows|] eqn:Er;
      cbn [mbind result_bind] in Emax; [|discriminate].
    injection Emax as <- _. rewrite length_map.
    apply rmap_Ok_Forall2, Forall2_length in Er. rewrite <- Er. apply Hlog. }
  destruct Hids as [Hi _], Hmask as [Hm _].
  destruct (zip_with_cons_drop
              (map (fun q => long (100 * q)) (softmax ms))
              (zip_with pick batch_vp_input_ids ps)) as [Di Fi].
  { rewrite length_map, length_softmax, length_zip_with. lia. }
  destruct (zip_with_cons_drop
              (map (fun _ : R => 1%Z) (softmax ms))
              (zip_with pick batch_vp_input_mask ps)) as [Dm Fm].
  { rewrite length_map, length_softmax, length_zip_with. lia. }
  eexists _, _, _, _. split; [exact Et|]. split; [exact Ee|].
  split; [exact Di|]. split; [exact Dm|].
  split; [|split; [|split; assumption]].
  - eapply rows_one_longer; eassumption.
  - eapply rows_one_longer; eassumption.
Qed.

(** X14: on the same batch the training loop and the evaluation loop
    gather the same VP slices; the training loop puts one more position
    in front of each, so that the adversary reads rows of [L + 1]
    entries in training and of [L] entries in evaluation. *)
Theorem train_select_extends_eval_select (B C L : nat)
    (logits : list (list R))
    (batch_vp_input_ids batch_vp_input_mask : list (list (list Z))) :
  0 < C ->
  shape2 B C logits ->
  shape3 B C L batch_vp_input_ids ->
  shape3 B C L batch_vp_input_mask ->
  exists train_ids train_mask eval_ids eval_mask,
    train_select logits batch_vp_input_ids batch_vp_input_mask
      = Ok (train_ids, train_mask) /\
    eval_select logits batch_vp_input_ids batch_vp_input_mask
      = Ok (eval_ids, eval_mask) /\
    map (drop 1) train_ids = eval_ids /\
    map (drop 1) train_mask = eval_mask /\
    Forall (fun row => length row = S L) train_ids /\
    Forall (fun row => length row = S L) train_mask /\
    Forall (fun row => length row = L) eval_ids /\
    Forall (fun row => length row = L) eval_mask.
Proof. apply selections_agree. Qed.

Lemma train_select_extends_eval_select_witness :
  0 < 4 /\
  shape2 1 4 [[0.1; 0.7; 0.3; 0.2]]%R /\
  shape3 1 4 2 [[[101; 5]; [101; 6]; [101; 7]; [101; 8]]]%Z /\
  shape3 1 4 2 [[[1; 1]; [1; 1]; [1; 1]; [1; 1]]]%Z /\
  exists train_ids train_mask eval_ids eval_mask,
    train_select [[0.1; 0.7; 0.3; 0.2]]%R
      [[[101; 5]; [101; 6]; [101; 7]; [101; 8]]]%Z
      [[[1; 1]; [1; 1]; [1; 1]; [1; 1]]]%Z = Ok (train_ids, train_mask) /\
    eval_select [[0.1; 0.7; 0.3; 0.2]]%R
      [[[101; 5]; [101; 6]; [101; 7]; [101; 8]]]%Z
      [[[1; 1]; [1; 1]; [1; 1]; [1; 1]]]%Z = Ok (eval_ids, eval_mask) /\
    map (drop 1) train_ids = eval_ids /\
    map (drop 1) train_mask = eval_mask /\
    Forall (fun row => length row = S 2) train_ids /\
    Forall (fun row => length row = S 2) train_mask /\
    Forall (fun row => length row = 2) eval_ids /\
    Forall (fun row => length row = 2) eval_mask.
Proof.
  assert (shape2 1 4 [[0.1; 0.7; 0.3; 0.2]]%R) as H2
    by (split; [reflexivity | repeat constructor]).
  assert (shape3 1 4 2 [[[101; 5]; [101; 6]; [101; 7]; [101; 8]]]%Z) as H3
    by (split; [reflexivity | repeat constructor]).
  assert (shape3 1 4 2 [[[1; 1]; [1; 1]; [1; 1]; [1; 1]]]%Z) as H3'
    by (split; [reflexivity | repeat constructor]).
  split; [lia|]. split; [exact H2|]. split; [exact H3|]. split; [exact H3'|].
  apply (train_select_extends_eval_select 1 4 2 _ _ _
           (Nat.lt_0_succ 3) H2 H3 H3').
Defined.

(** X15: the tensors stacked from a batch of encoded features meet the
    shape requirements of both selections, whatever logits of shape
    [B, 4] the predictor returns: neither [eval_select] nor
    [train_select] can fail on them. *)
Theorem encoder_output_feeds_selection (examples : list SwagExample)
    (tk : tokenizer) (max_seq_length : Z) (is_training : bool)
    (features batch : list InputFeatures) (logits : list (list R)) :
  convert_examples_to_features examples tk max_seq_length is_training
    = Ok features ->
  (forall f, f ∈ batch -> f ∈ features) ->
  shape2 (length batch) 4 logits ->
  exists vp_ids vp_mask,
    select_field batch "vp_input_ids" = Some vp_ids /\
    select_field batch "vp_input_mask" = Some vp_mask /\
    (exists ids mask, eval_select logits vp_ids vp_mask = Ok (ids, mask)) /\
    (exists ids mask, train_select logits vp_ids vp_mask = Ok (ids, mask)).
Proof.
  intros E Hsub Hlog.
  destruct (stacked_shapes _ _ _ _ _ batch E Hsub) as [_ Hvp].
  destruct (Hvp "vp_input_ids") as (vp & Evp & Svp); [set_solver|].
  destruct (Hvp "vp_input_mask") as (vm & Evm & Svm); [set_solver|].
  exists vp, vm. split; [exact Evp|]. split; [exact Evm|].
  destruct (selections_agree (length batch) 4 _ logits vp vm
              (Nat.lt_0_succ 3) Hlog Svp Svm)
    as (ti & tm & ei & em & Et & Ee & _).
  split; eauto.
Qed.

Lemma encoder_output_feeds_selection_witness :
  exists features,
    convert_examples_to_features [toy_example] toy_tokenizer 16 true
      = Ok features /\
    (forall f, f ∈ features -> f ∈ features) /\
    shape2 (length features) 4 [[0.1; 0.7; 0.3; 0.2]]%R /\
    exists vp_ids vp_mask,
      select_field features "vp_input_ids" = Some vp_ids /\
      select_field features "vp_input_mask" = Some vp_mask /\
      (exists ids mask,
          eval_select [[0.1; 0.7; 0.3; 0.2]]%R vp_ids vp_mask
            = Ok (ids, mask)) /\
      (exists ids mask,
          train_select [[0.1; 0.7; 0.3; 0.2]]%R vp_ids vp_mask
            = Ok (ids, mask)).
Proof.
  destruct (convert_examples_to_features [toy_example] toy_tokenizer 16 true)
    as [fs|e] eqn:E.
  - assert (length fs = 1) as Hlen.
    { apply rmap_Ok_Forall2, Forall2_length in E. now rewrite <- E. }
    assert (shape2 (length fs) 4 [[0.1; 0.7; 0.3; 0.2]]%R) as Hs
      by (rewrite Hlen; split; [reflexivity | repeat constructor]).
    exists fs. split; [reflexivity|]. split; [auto|]. split; [exact Hs|].
    apply (encoder_output_feeds_selection [toy_example] toy_tokenizer 16 true
             fs fs _ E); [auto | exact Hs].
  - vm_compute in E. discriminate E.
Defined.

(** ** [accuracy]: a count over the batch *)

Lemma sum_bool_bounds (bs : list bool) :
  (0 <= sum_bool bs <= Z.of_nat (length bs))%Z.
Proof.
  induction bs as [|b bs IH]; cbn [sum_bool foldr length]; [lia|].
  fold (sum_bool bs). destruct b; lia.
Qed.

Lemma sum_bool_app (bs cs : list bool) :
  sum_bool (bs ++ cs) = (sum_bool bs + sum_bool cs)%Z.
Proof.
  induction bs as [|b bs IH]; cbn [sum_bool foldr app]; [reflexivity|].
  fold (sum_bool (bs ++ cs)). fold (sum_bool bs). rewrite IH. lia.
Qed.

Lemma eq_broadcast_length xs ys bs :
  eq_broadcast xs ys = Ok bs ->
  length bs <= Nat.max (length xs) (length ys).
Proof.
  unfold eq_broadcast. destruct (Nat.eqb_spec (length xs) (length ys)) as [E|E].
  - intros [= <-]. rewrite length_zip_with. lia.
  - destruct xs as [|x [|x' xs]]; [destruct ys as [|y [|y' ys]]| |].
    + discriminate.
    + intros [= <-]. cbn. lia.
    + discriminate.
    + intros [= <-]. cbn [map length]. rewrite ?length_map. lia.
    + destruct ys as [|y [|y' ys]]; [discriminate| |discriminate].
      intros [= <-]. cbn [map length]. rewrite ?length_map. lia.
Qed.

Lemma rmap_app {A B} (f : A -> result B) xs ys as_ bs :
  rmap f xs = Ok as_ -> rmap f ys = Ok bs ->
  rmap f (xs ++ ys) = Ok (as_ ++ bs).
Proof.
  revert as_. induction xs as [|x xs IH]; intros as_; cbn.
  - intros [= <-] H. exact H.
  - destruct (f x) as [y|]; cbn; [|discriminate].
    destruct (rmap f xs) as [ys'|] eqn:E; cbn; [|discriminate].
    intros [= <-] H. now rewrite (IH ys' eq_refl H).
Qed.

Lemma rmap_Ok_length {A B} (f : A -> result B) xs ys :
  rmap f xs = Ok ys -> length ys = length xs.
Proof.
  intros H. apply rmap_Ok_Forall2, Forall2_length in H. auto.
Qed.

Lemma accuracy_Ok_inv out labels n :
  accuracy out labels = Ok n ->
  exists rows bs,
    rmap row_max out = Ok rows /\
    eq_broadcast (map Z.of_nat (map snd rows)) labels = Ok bs /\
    n = sum_bool bs.
Proof.
  unfold accuracy, argmax_dim1. intros H.
  destruct (rmap row_max out) as [rows|] eqn:Er;
    cbn [mbind result_bind] in H; [|discriminate].
  destruct (eq_broadcast _ labels) as [bs|] eqn:Eb;
    cbn [mbind result_bind] in H; [|discriminate].
  injection H as <-. eauto.
Qed.

Lemma accuracy_bounds (out : list (list R)) (labels : list Z) (n : Z) :
  accuracy out labels = Ok n ->
  (0 <= n <= Z.of_nat (Nat.max (length out) (length labels)))%Z.
Proof.
  intros H. apply accuracy_Ok_inv in H as (rows & bs & Er & Eb & ->).
  apply eq_broadcast_length in Eb. apply rmap_Ok_length in Er.
  rewrite !length_map, Er in Eb.
  pose proof (sum_bool_bounds bs). lia.
Qed.

(** X16: what [accuracy] returns is a count: it lies between 0 and the
    number of rows compared (the number of logits rows when there are as
    many labels). *)
Theorem accuracy_is_bounded_by_batch_size (out : list (list R))
    (labels : list Z) (n : Z) :
  accuracy out labels = Ok n ->
  (0 <= n <= Z.of_nat (Nat.max (length out) (length labels)))%Z.
Proof. apply accuracy_bounds. Qed.

Lemma accuracy_is_bounded_by_batch_size_witness :
  accuracy [[0.1; 0.9]; [0.8; 0.2]]%R [1; 0]%Z = Ok 2%Z /\
  (0 <= 2 <= Z.of_nat (Nat.max (length [[0.1; 0.9]; [0.8; 0.2]]%R)
                               (length [1; 0]%Z)))%Z.
Proof.
  assert (accuracy [[0.1; 0.9]; [0.8; 0.2]]%R [1; 0]%Z = Ok 2%Z) as H.
  { unfold accuracy, argmax_dim1. cbn [rmap row_max mbind result_bind].
    decide_Rlt. reflexivity. }
  split; [exact H|].
  apply (accuracy_is_bounded_by_batch_size
           [[0.1; 0.9]; [0.8; 0.2]]%R [1; 0]%Z 2 H).
Defined.

(** X17: the count is additive over batches: on two batches put one
    after the other [accuracy] returns the sum of what it returns on
    each, which is why the evaluation loop may add up per-batch
    counts. *)
Theorem accuracy_adds_over_batches (out1 out2 : list (list R))
    (labels1 labels2 : list Z) (n1 n2 : Z) :
  length labels1 = length out1 ->
  length labels2 = length out2 ->
  accuracy out1 labels1 = Ok n1 ->
  accuracy out2 labels2 = Ok n2 ->
  accuracy (out1 ++ out2) (labels1 ++ labels2) = Ok (n1 + n2)%Z.
Proof.
  intros L1 L2 H1 H2.
  apply accuracy_Ok_inv in H1 as (r1 & b1 & Er1 & Eb1 & ->).
  apply accuracy_Ok_inv in H2 as (r2 & b2 & Er2 & Eb2 & ->).
  pose proof (rmap_Ok_length _ _ _ Er1) as Lr1.
  pose proof (rmap_Ok_length _ _ _ Er2) as Lr2.
  unfold accuracy, argmax_dim1.
  rewrite (rmap_app _ _ _ _ _ Er1 Er2). cbn [mbind result_bind].
  unfold eq_broadcast in *.
  rewrite !length_map in *. rewrite !length_app.
  rewrite Lr1, <- L1, Nat.eqb_refl in Eb1.
  rewrite Lr2, <- L2, Nat.eqb_refl in Eb2.
  injection Eb1 as <-. injection Eb2 as <-.
  replace (length r1 + length r2 =? length labels1 + length labels2)
    with true by (symmetry; apply Nat.eqb_eq; lia).
  cbn [mbind result_bind]. f_equal.
  rewrite !map_app, zip_with_app by (rewrite !length_map; lia).
  apply sum_bool_app.
Qed.

Lemma accuracy_adds_over_batches_witness :
  length [1%Z] = length [[0.1; 0.9]]%R /\
  length [0%Z] = length [[0.8; 0.2]]%R /\
  accuracy [[0.1; 0.9]]%R [1%Z] = Ok 1%Z /\
  accuracy [[0.8; 0.2]]%R [0%Z] = Ok 1%Z /\
  accuracy ([[0.1; 0.9]] ++ [[0.8; 0.2]])%R ([1%Z] ++ [0%Z]) = Ok (1 + 1)%Z.
Proof.
  assert (accuracy [[0.1; 0.9]]%R [1%Z] = Ok 1%Z) as H1.
  { unfold accuracy, argmax_dim1. cbn [rmap row_max mbind result_bind].
    decide_Rlt. reflexivity. }
  assert (accuracy [[0.8; 0.2]]%R [0%Z] = Ok 1%Z) as H2.
  { unfold accuracy, argmax_dim1. cbn [rmap row_max mbind result_bind].
    decide_Rlt. reflexivity. }
  split; [reflexivity|]. split; [reflexivity|]. split; [exact H1|].
  split; [exact H2|].
  apply (accuracy_adds_over_batches [[0.1; 0.9]]%R [[0.8; 0.2]]%R
           [1%Z] [0%Z] 1 1 eq_refl eq_refl H1 H2).
Defined.

(** ** The confidence position: a share of the batch *)

Lemma max_dim1_length logits ms ps :
  max_dim1 logits = Ok (ms, ps) ->
  length ms = length logits /\ length ps = length logits.
Proof.
  unfold max_dim1. intros H.
  destruct (rmap row_max logits) as [rows|] eqn:Er;
    cbn [mbind result_bind] in H; [|discriminate].
  injection H as <- <-. apply rmap_Ok_length in Er.
  now rewrite !length_map.
Qed.

Lemma softmax_single (x : R) : softmax [x] = [1%R].
Proof.
  unfold softmax, sum_R. cbn [map foldr]. f_equal.
  pose proof (exp_pos x). field. lra.
Qed.

(** X18: in a batch of one example the prepended confidence is 100,
    whatever the logits: the softmax is taken over the batch, which then
    has a single entry. *)
Theorem single_example_confidence_is_100 (C L : nat) (row : list R)
    (choices_ids choices_mask : list (list Z)) :
  0 < C ->
  shape2 1 C [row] ->
  shape3 1 C L [choices_ids] ->
  shape3 1 C L [choices_mask] ->
  exists p, is_argmax row p /\
    train_select [row] [choices_ids] [choices_mask]
      = Ok ([100%Z :: pick choices_ids p], [1%Z :: pick choices_mask p]).
Proof.
  intros HC Hlog Hids Hmask.
  destruct (train_select_slices 1 C L [row] _ _ HC Hlog Hids Hmask)
    as (ms & ps & Emax & Hps & ->).
  destruct (max_dim1_length _ _ _ Emax) as [Lm Lp].
  destruct ms as [|x [|? ?]]; try discriminate.
  destruct ps as [|p [|? ?]]; try discriminate.
  exists p. split; [now apply Forall2_cons in Hps as [? _]|].
  rewrite softmax_single. cbn [map zip_with].
  replace (100 * 1)%R with (IZR 100) by lra. now rewrite long_IZR.
Qed.

Lemma single_example_confidence_is_100_witness :
  0 < 4 /\
  shape2 1 4 [[0.1; 0.7; 0.3; 0.2]]%R /\
  shape3 1 4 2 [[[101; 5]; [101; 6]; [101; 7]; [101; 8]]]%Z /\
  shape3 1 4 2 [[[1; 1]; [1; 1]; [1; 1]; [1; 1]]]%Z /\
  exists p, is_argmax [0.1; 0.7; 0.3; 0.2]%R p /\
    train_select [[0.1; 0.7; 0.3; 0.2]]%R
      [[[101; 5]; [101; 6]; [101; 7]; [101; 8]]]%Z
      [[[1; 1]; [1; 1]; [1; 1]; [1; 1]]]%Z
    = Ok ([100%Z :: pick [[101; 5]; [101; 6]; [101; 7]; [101; 8]]%Z p],
          [1%Z :: pick [[1; 1]; [1; 1]; [1; 1]; [1; 1]]%Z p]).
Proof.
  assert (shape2 1 4 [[0.1; 0.7; 0.3; 0.2]]%R) as H2
    by (split; [reflexivity | repeat constructor]).
  assert (shape3 1 4 2 [[[101; 5]; [101; 6]; [101; 7]; [101; 8]]]%Z) as H3
    by (split; [reflexivity | repeat constructor]).
  assert (shape3 1 4 2 [[[1; 1]; [1; 1]; [1; 1]; [1; 1]]]%Z) as H3'
    by (split; [reflexivity | repeat constructor]).
  split; [lia|]. split; [exact H2|]. split; [exact H3|]. split; [exact H3'|].
  apply (single_example_confidence_is_100 4 2 _ _ _
           (Nat.lt_0_succ 3) H2 H3 H3').
Defined.

Lemma row_max_maximum (row : list R) (m m' : R) (i : nat) :
  row_max row = Ok (m', i) -> row_maximum row m -> m' = m.
Proof.
  intros E [Hin Hle]. apply row_max_spec in E as (Hi & Hmax & _).
  apply list_elem_of_lookup_1 in Hin as [j Hj].
  pose proof (Hmax j m Hj) as H1.
  pose proof (Hle m' (list_elem_of_lookup_2 _ _ _ Hi)) as H2.
  lra.
Qed.

Lemma equal_maxima (logits : list (list R)) (ms : list R) (m : R) :
  Forall2 (fun row x => exists p, row_max row = Ok (x, p)) logits ms ->
  Forall (fun row => row_maximum row m) logits ->
  ms = replicate (length logits) m.
Proof.
  induction 1 as [|row x rows xs (p & E) _ IH]; intros Hall; [reflexivity|].
  apply Forall_cons in Hall as [Hm Hall]. cbn [length replicate].
  f_equal; [eapply row_max_maximum; eauto | now apply IH].
Qed.

Lemma map_replicate {A B} (f : A -> B) (n : nat) (x : A) :
  map f (replicate n x) = replicate n (f x).
Proof. induction n as [|n IH]; cbn; [reflexivity | now rewrite IH]. Qed.

Lemma sum_R_replicate (n : nat) (x : R) :
  sum_R (replicate n x) = (INR n * x)%R.
Proof.
  induction n as [|n IH]; cbn [replicate sum_R foldr].
  - cbn. lra.
  - fold (sum_R (replicate n x)). rewrite IH, S_INR. lra.
Qed.

Lemma softmax_replicate (n : nat) (m : R) :
  0 < n -> softmax (replicate n m) = replicate n (1 / INR n)%R.
Proof.
  intros Hn. unfold softmax.
  rewrite !map_replicate, sum_R_replicate. f_equal.
  assert (0 < INR n)%R by (apply lt_0_INR; lia).
  pose proof (exp_pos m). field. split; lra.
Qed.

Lemma long_percent_share (n : nat) :
  0 < n -> long (100 * (1 / INR n)) = (100 / Z.of_nat n)%Z.
Proof.
  intros Hn. rewrite INR_IZR_INZ.
  assert (0 < Z.of_nat n)%Z as Hb by lia.
  set (b := Z.of_nat n) in *. clearbody b. clear Hn n.
  pose proof (Z.div_mod 100 b ltac:(lia)) as Hdm.
  pose proof (Z.mod_pos_bound 100 b Hb) as [Hr0 Hr1].
  pose proof (Z.div_pos 100 b ltac:(lia) Hb) as Hq.
  set (q := (100 / b)%Z) in *. set (r := (100 mod b)%Z) in *.
  clearbody q r.
  assert (0 < IZR b)%R as Hpos by (apply IZR_lt; lia).
  apply IZR_le in Hr0. apply IZR_lt in Hr1.
  apply (f_equal IZR) in Hdm. rewrite plus_IZR, mult_IZR in Hdm.
  assert (100 * (1 / IZR b) = IZR q + IZR r / IZR b)%R as ->.
  { rewrite Hdm. field. lra. }
  assert (0 <= IZR r / IZR b < 1)%R as [Hf0 Hf1].
  { split.
    - apply Rmult_le_pos; [exact Hr0|]. apply Rlt_le, Rinv_0_lt_compat, Hpos.
    - apply Rmult_lt_reg_r with (IZR b); [exact Hpos|].
      unfold Rdiv. rewrite Rmult_assoc, Rinv_l by lra. lra. }
  apply IZR_le in Hq.
  unfold long. destruct (Rle_dec 0 (IZR q + IZR r / IZR b)) as [_|Hneg];
    [|exfalso; lra].
  apply Zfloor_eq. lra.
Qed.

Lemma Forall_zip_with_cons_replicate {A} (n : nat) (c : A)
    (ss : list (list A)) :
  Forall (fun row => exists rest, row = c :: rest)
         (zip_with cons (replicate n c) ss).
Proof.
  revert ss. induction n as [|n IH]; intros [|s ss]; cbn; constructor; eauto.
Qed.

(** X19: the confidence is a share of the batch, not of the example's
    own choices: when the largest logit is the same number for every
    example of a training batch of [B >= 1] examples, each of them gets
    [100 // B] prepended, however the other logits lie. *)
Theorem equal_row_maxima_give_100_div_batch_size (B C L : nat) (m : R)
    (logits : list (list R))
    (batch_vp_input_ids batch_vp_input_mask : list (list (list Z)))
    (adv_ids adv_mask : list (list Z)) :
  0 < B -> 0 < C ->
  shape2 B C logits ->
  shape3 B C L batch_vp_input_ids ->
  shape3 B C L batch_vp_input_mask ->
  Forall (fun row => row_maximum row m) logits ->
  train_select logits batch_vp_input_ids batch_vp_input_mask
    = Ok (adv_ids, adv_mask) ->
  length adv_ids = B /\
  Forall (fun row => exists rest, row = (100 / Z.of_nat B)%Z :: rest) adv_ids.
Proof.
  intros HB HC Hlog Hids Hmask Hmax E.
  destruct (train_select_slices B C L logits _ _ HC Hlog Hids Hmask)
    as (ms & ps & Emax & Hps & E').
  rewrite E' in E. injection E as <- _.
  destruct (max_dim1_Ok logits) as (ms' & ps' & Emax' & _ & Hms);
    [eapply shape2_nonempty; eauto|].
  rewrite Emax in Emax'. injection Emax' as <- <-.
  apply equal_maxima with (m := m) in Hms; [|exact Hmax].
  destruct (is_argmax_in_range B C logits ps Hlog Hps) as [Lp _].
  destruct Hlog as [Hlen _], Hids as [Hi _].
  rewrite Hlen in Hms. subst ms.
  rewrite softmax_replicate, map_replicate, long_percent_share by exact HB.
  split.
  - rewrite !length_zip_with, length_replicate. lia.
  - apply Forall_zip_with_cons_replicate.
Qed.

Lemma equal_row_maxima_give_100_div_batch_size_witness :
  Forall (fun row => row_maximum row 0%R)
    [[0; -5; -5; -5]; [-5; 0; -5; -5]]%R /\
  exists adv_ids adv_mask,
    train_select [[0; -5; -5; -5]; [-5; 0; -5; -5]]%R
      [[[101; 5; 102]; [101; 6; 102]; [101; 7; 102]; [101; 8; 102]];
       [[101; 9; 102]; [101; 3; 102]; [101; 4; 102]; [101; 2; 102]]]%Z
      [[[1; 1; 1]; [1; 1; 1]; [1; 1; 1]; [1; 1; 1]];
       [[1; 1; 1]; [1; 1; 1]; [1; 1; 1]; [1; 1; 1]]]%Z
    = Ok (adv_ids, adv_mask) /\
    length adv_ids = 2 /\
    Forall (fun row => exists rest, row = (100 / Z.of_nat 2)%Z :: rest)
           adv_ids.
Proof.
  assert (Forall (fun row => row_maximum row 0%R)
            [[0; -5; -5; -5]; [-5; 0; -5; -5]]%R) as Hmax.
  { assert (forall row, row = [0; -5; -5; -5]%R \/ row = [-5; 0; -5; -5]%R ->
                         row_maximum row 0%R) as Hrow.
    { intros row [-> | ->];
        (split; [apply list_elem_of_In; cbn; tauto|]);
        intros x Hx; apply list_elem_of_In in Hx; cbn in Hx;
        repeat (destruct Hx as [<-|Hx]; [lra|]); contradiction. }
    constructor; [apply Hrow; now left|].
    constructor; [apply Hrow; now right | constructor]. }
  split; [exact Hmax|].
  destruct (train_select_slices 2 4 3
              [[0; -5; -5; -5]; [-5; 0; -5; -5]]%R
              [[[101; 5; 102]; [101; 6; 102]; [101; 7; 102]; [101; 8; 102]];
               [[101; 9; 102]; [101; 3; 102]; [101; 4; 102]; [101; 2; 102]]]%Z
              [[[1; 1; 1]; [1; 1; 1]; [1; 1; 1]; [1; 1; 1]];
               [[1; 1; 1]; [1; 1; 1]; [1; 1; 1]; [1; 1; 1]]]%Z)
    as (ms & ps & _ & _ & E);
    try (split; [reflexivity | repeat constructor]); [lia|].
  eexists _, _. split; [exact E|].
  eapply (equal_row_maxima_give_100_div_batch_size 2 4 3 0%R);
    [lia | lia | | | | exact Hmax | exact E];
    split; try reflexivity; repeat constructor.
Defined.

(** ** The losses under reduced precision *)

(** X20: with [--fp16] and the default [--loss_scale] 0 ("dynamic loss
    scaling") the loop multiplies both losses by the loss scale, that is
    by 0: the recorded pair, the loss backpropagated for the predictor
    and the loss backpropagated for the adversary are all 0. *)
Theorem fp16_default_loss_scale_zeroes_losses (a : args) (n_gpu : Z)
    (loss_pred loss_adv : list R) (s : step_losses) :
  fp16 a = true -> loss_scale a = 0%R ->
  training_step_losses a n_gpu loss_pred loss_adv = Ok s ->
  history_entry s = (0%R, 0%R) /\ loss s = 0%R /\ adversary_loss s = 0%R.
Proof.
  intros Hf Hs. unfold training_step_losses.
  destruct (if (n_gpu >? 1)%Z then Ok (mean loss_pred) else item loss_pred)
    as [lp|]; [|discriminate].
  destruct (if (n_gpu >? 1)%Z then Ok (mean loss_adv) else item loss_adv)
    as [la|]; [|discriminate].
  cbn [mbind result_bind]. rewrite Hf, Hs. cbn [andb].
  destruct (Req_dec_T 0 1) as [H01|_]; [exfalso; lra|].
  intros [= <-]. cbn [history_entry loss adversary_loss].
  destruct (gradient_accumulation_steps a >? 1)%Z; unfold alpha;
    repeat split; try (f_equal; lra); lra.
Qed.

Lemma fp16_default_loss_scale_zeroes_losses_witness :
  fp16 (mkArgs true 0 1) = true /\ loss_scale (mkArgs true 0 1) = 0%R /\
  exists s,
    training_step_losses (mkArgs true 0 1) 1 [2%R] [3%R] = Ok s /\
    history_entry s = (0%R, 0%R) /\ loss s = 0%R /\ adversary_loss s = 0%R.
Proof.
  split; [reflexivity|]. split; [reflexivity|].
  destruct (training_step_losses (mkArgs true 0 1) 1 [2%R] [3%R])
    as [s|e] eqn:E.
  - exists s. split; [reflexivity|].
    apply (fp16_default_loss_scale_zeroes_losses (mkArgs true 0 1) 1
             [2%R] [3%R] s eq_refl eq_refl E).
  - unfold training_step_losses in E. cbn in E.
    destruct (Req_dec_T 0 1); discriminate E.
Defined.

(** ** [get_gender.py]: order of the output, and a row that is too short *)

Lemma label_rows_app (pre rest : list (list string)) body :
  label_rows pre = (body, None) ->
  label_rows (pre ++ rest)
    = ((body ++ (label_rows rest).1), (label_rows rest).2).
Proof.
  revert body. induction pre as [|row pre IH]; intros body; cbn [label_rows app].
  - intros [= <-]. now destruct (label_rows rest).
  - destruct (label_row row) as [w|e]; [|discriminate].
    destruct (label_rows pre) as [b o] eqn:E. intros [= <- ->].
    rewrite (IH b eq_refl). now rewrite app_assoc.
Qed.

Lemma label_row_short (row : list string) :
  length row <= 5 -> label_row row = Raise IndexError.
Proof.
  intros H. unfold label_row, index.
  now rewrite (lookup_ge_None_2 row 5 H).
Qed.

(** X21: a data row without a column 5 ends the script with
    [IndexError]: what has been written is the header and the rows
    written for the data rows before it; the rows after it are not
    read. *)
Theorem get_gender_stops_at_short_row (header : list string)
    (pre post : list (list string)) (short : list string) :
  (forall row, row ∈ pre -> 5 < length row) ->
  length short <= 5 ->
  get_gender (header :: pre ++ short :: post)
    = ((get_gender (header :: pre)).1, Some IndexError).
Proof.
  intros Hpre Hshort.
  destruct (label_rows_spec pre Hpre) as (body & E & _).
  cbn [get_gender]. rewrite E, (label_rows_app pre (short :: post) body E).
  cbn [label_rows]. rewrite (label_row_short short Hshort).
  cbn [fst snd]. now rewrite app_nil_r.
Qed.

Lemma get_gender_stops_at_short_row_witness :
  (forall row, row ∈ [["0"; "1"; "2"; "3"; "4"; "The man and she"]] ->
               5 < length row) /\
  length ["0"; "1"; "2"] <= 5 /\
  get_gender (["a"; "b"; "c"; "d"; "e"; "sent2"]
                :: [["0"; "1"; "2"; "3"; "4"; "The man and she"]]
                ++ ["0"; "1"; "2"] :: [["0"; "1"; "2"; "3"; "4"; "she"]])
    = ((get_gender (["a"; "b"; "c"; "d"; "e"; "sent2"]
                      :: [["0"; "1"; "2"; "3"; "4"; "The man and she"]])).1,
       Some IndexError).
Proof.
  assert (forall row,
             row ∈ [["0"; "1"; "2"; "3"; "4"; "The man and she"]] ->
             5 < length row) as H1.
  { intros row Hrow. apply list_elem_of_singleton in Hrow as ->. cbn. lia. }
  assert (length ["0"; "1"; "2"] <= 5) as H2 by (cbn; lia).
  split; [exact H1|]. split; [exact H2|].
  apply (get_gender_stops_at_short_row
           ["a"; "b"; "c"; "d"; "e"; "sent2"]
           [["0"; "1"; "2"; "3"; "4"; "The man and she"]]
           [["0"; "1"; "2"; "3"; "4"; "she"]] ["0"; "1"; "2"] H1 H2).
Defined.

Lemma gendered_row_spec (row : list string) (np : string) :
  row !! 5 = Some np ->
  gendered_row row <-> has_gendered_word (split " " np).
Proof.
  intros H. unfold gendered_row, has_gendered_word. rewrite H. cbn [default].
  apply Exists_exists.
Qed.

Lemma label_rows_filter (rows : list (list string)) :
  (forall row, row ∈ rows -> 5 < length row) ->
  map (@removelast cell) (label_rows rows).1
    = map (map Str) (filter gendered_row rows) /\
  (label_rows rows).2 = None.
Proof.
  induction rows as [|row rows IH]; intros Hcols; [split; reflexivity|].
  destruct IH as [IHb IHe]; [intros r Hr; apply Hcols; now right|].
  destruct (lookup_lt_is_Some_2 row 5) as [np Hnp]; [apply Hcols; left|].
  cbn [label_rows]. rewrite filter_cons.
  destruct (label_rows rows) as [body e]. cbn [fst snd] in *.
  destruct (label_row_spec row np Hnp) as [[Hno ->] | (w & Hlast & ->)].
  - rewrite decide_False
      by (intros Hg; apply Hno, (gendered_row_spec row np Hnp), Hg).
    unfold option_list. cbn [option_rect app fst snd]. auto.
  - rewrite decide_True
      by (apply (gendered_row_spec row np Hnp);
          eapply last_gendered_word_has, Hlast).
    unfold option_list. cbn [option_rect app fst snd map].
    rewrite removelast_last, IHb. auto.
Qed.

(** X22: the output keeps the order and the number of the input:
    without their last column (the label) the data rows written are the
    data rows with a gendered word in column 5, in the order of the
    input, a repeated row as often as it occurs; the header comes
    first. *)
Theorem get_gender_keeps_row_order (header : list string)
    (rows : list (list string)) :
  (forall row, row ∈ rows -> 5 < length row) ->
  map (@removelast cell) (get_gender (header :: rows)).1
    = map (map Str) (header :: filter gendered_row rows) /\
  (get_gender (header :: rows)).2 = None.
Proof.
  intros Hcols. destruct (label_rows_filter rows Hcols) as [Hb He].
  cbn [get_gender]. destruct (label_rows rows) as [body e].
  cbn [fst snd map] in *. rewrite removelast_last, Hb. auto.
Qed.

Lemma get_gender_keeps_row_order_witness :
  (forall row,
      row ∈ [["0"; "1"; "2"; "3"; "4"; "she ran"];
             ["0"; "1"; "2"; "3"; "4"; "The dog"];
             ["0"; "1"; "2"; "3"; "4"; "a man"]] -> 5 < length row) /\
  map (@removelast cell)
    (get_gender (["a"; "b"; "c"; "d"; "e"; "sent2"]
                   :: [["0"; "1"; "2"; "3"; "4"; "she ran"];
                       ["0"; "1"; "2"; "3"; "4"; "The dog"];
                       ["0"; "1"; "2"; "3"; "4"; "a man"]])).1
    = map (map Str)
        (["a"; "b"; "c"; "d"; "e"; "sent2"]
           :: filter gendered_row
                [["0"; "1"; "2"; "3"; "4"; "she ran"];
                 ["0"; "1"; "2"; "3"; "4"; "The dog"];
                 ["0"; "1"; "2"; "3"; "4"; "a man"]]) /\
  (get_gender (["a"; "b"; "c"; "d"; "e"; "sent2"]
                 :: [["0"; "1"; "2"; "3"; "4"; "she ran"];
                     ["0"; "1"; "2"; "3"; "4"; "The dog"];
                     ["0"; "1"; "2"; "3"; "4"; "a man"]])).2 = None.
Proof.
  assert (forall row,
      row ∈ [["0"; "1"; "2"; "3"; "4"; "she ran"];
             ["0"; "1"; "2"; "3"; "4"; "The dog"];
             ["0"; "1"; "2"; "3"; "4"; "a man"]] -> 5 < length row) as H.
  { intros row Hrow.
    repeat (apply elem_of_cons in Hrow as [-> | Hrow]; [cbn; lia|]).
    inversion Hrow. }
  split; [exact H|].
  apply (get_gender_keeps_row_order ["a"; "b"; "c"; "d"; "e"; "sent2"] _ H).
Defined.

(** ** The evaluation loop *)

Lemma accuracy_on_shape (B C : nat) (out : list (list R)) (labels : list Z) :
  0 < C -> shape2 B C out -> length labels = B ->
  exists n, accuracy out labels = Ok n /\ (0 <= n <= Z.of_nat B)%Z.
Proof.
  intros HC Hout Hlen.
  destruct (argmax_dim1_Ok out) as (ps & _ & Hps);
    [eapply shape2_nonempty; eauto|].
  destruct Hout as [Ho _].
  assert (accuracy out labels = Ok (count_correct ps labels)) as E
    by (apply accuracy_argmax; [congruence | exact Hps]).
  eexists. split; [exact E|].
  apply accuracy_bounds in E. lia.
Qed.

Section evaluation_properties.
Variable predictor :
  list (list (list Z)) -> list (list (list Z)) -> list (list (list Z)) ->
  list Z -> list R * list (list R).
Variable adversary :
  list (list Z) -> list (list Z) -> list Z -> list R * list (list R).
Variable L : nat.
Hypothesis predictor_ok : predictor_rows predictor.
Hypothesis adversary_ok : adversary_rows adversary.

Lemma eval_step_Ok (s : eval_sums) (b : eval_batch) :
  batch_ok L b ->
  exists s' r, scores_of predictor adversary b r /\
    eval_step predictor adversary s b = Ok s' /\
    eval_loss_pred s' = (eval_loss_pred s + s_loss_pred r)%R /\
    eval_accuracy_pred s' = (eval_accuracy_pred s + s_hits_pred r)%Z /\
    eval_loss_adv s' = (eval_loss_adv s + s_loss_adv r)%R /\
    eval_accuracy_adv s' = (eval_accuracy_adv s + s_hits_adv r)%Z /\
    nb_eval_steps s' = (nb_eval_steps s + 1)%Z /\
    nb_eval_examples s' = (nb_eval_examples s + len (b_input_ids b))%Z /\
    (0 <= s_hits_pred r <= len (b_input_ids b))%Z /\
    (0 <= s_hits_adv r <= len (b_input_ids b))%Z.
Proof.
  intros (_ & _ & Hl & Hp & Hvi & Hvm).
  pose proof (predictor_ok (b_input_ids b) (b_segment_ids b) (b_input_mask b)
                (b_label_ids b)) as Hlog.
  destruct (predictor (b_input_ids b) (b_segment_ids b) (b_input_mask b)
              (b_label_ids b)) as [loss_p logits_p] eqn:Ep.
  cbn [snd] in Hlog. rewrite Hl in Hlog.
  destruct (eval_select_slices _ 4 L logits_p _ _ (Nat.lt_0_succ 3)
              Hlog Hvi Hvm) as (ps & Hps & Esel & _).
  pose proof (adversary_ok (zip_with pick (b_vp_input_ids b) ps)
                (zip_with pick (b_vp_input_mask b) ps)
                (b_protected_attr_ids b)) as Hadv.
  destruct (adversary (zip_with pick (b_vp_input_ids b) ps)
              (zip_with pick (b_vp_input_mask b) ps)
              (b_protected_attr_ids b)) as [loss_a logits_a] eqn:Ea.
  cbn [snd] in Hadv. rewrite Hp in Hadv.
  destruct (argmax_dim1_Ok logits_a) as (qs & _ & Hqs);
    [eapply shape2_nonempty; [exact Hadv | lia]|].
  assert (accuracy logits_p (b_label_ids b)
            = Ok (count_correct ps (b_label_ids b))) as Eaccp.
  { apply accuracy_argmax; [|exact Hps]. destruct Hlog as [-> _]. exact Hl. }
  assert (accuracy logits_a (b_protected_attr_ids b)
            = Ok (count_correct qs (b_protected_attr_ids b))) as Eacca.
  { apply accuracy_argmax; [|exact Hqs]. destruct Hadv as [-> _]. exact Hp. }
  destruct (accuracy_on_shape _ 4 logits_p (b_label_ids b)
              (Nat.lt_0_succ 3) Hlog Hl) as (np & Enp & Hnp).
  destruct (accuracy_on_shape _ 3 logits_a (b_protected_attr_ids b)
              (Nat.lt_0_succ 2) Hadv Hp) as (na & Ena & Hna).
  rewrite Eaccp in Enp. injection Enp as <-.
  rewrite Eacca in Ena. injection Ena as <-.
  eexists _, (mkBatchScores (mean loss_p)
                (count_correct ps (b_label_ids b)) (mean loss_a)
                (count_correct qs (b_protected_attr_ids b))).
  split.
  { unfold scores_of. rewrite Ep. exists ps, qs. cbn [fst snd].
    split; [exact Hps|]. rewrite Ea. cbn [fst snd s_loss_pred s_hits_pred
      s_loss_adv s_hits_adv]. repeat split. exact Hqs. }
  split.
  { unfold eval_step. rewrite Ep, Esel. cbn [mbind result_bind].
    rewrite Ea, Eaccp, Eacca. cbn [mbind result_bind]. reflexivity. }
  cbn [eval_loss_pred eval_accuracy_pred eval_loss_adv eval_accuracy_adv
       nb_eval_steps nb_eval_examples s_loss_pred s_hits_pred s_loss_adv
       s_hits_adv].
  unfold len. repeat split; lia.
Qed.

Lemma eval_loop_Ok (batches : list eval_batch) :
  Forall (batch_ok L) batches ->
  forall s, exists s' scores,
    Forall2 (scores_of predictor adversary) batches scores /\
    eval_loop predictor adversary s batches = Ok s' /\
    eval_loss_pred s'
      = (eval_loss_pred s + sum_R (map s_loss_pred scores))%R /\
    eval_accuracy_pred s'
      = (eval_accuracy_pred s + sum_Z (map s_hits_pred scores))%Z /\
    eval_loss_adv s'
      = (eval_loss_adv s + sum_R (map s_loss_adv scores))%R /\
    eval_accuracy_adv s'
      = (eval_accuracy_adv s + sum_Z (map s_hits_adv scores))%Z /\
    nb_eval_steps s' = (nb_eval_steps s + len batches)%Z /\
    nb_eval_examples s' = (nb_eval_examples s + total_examples batches)%Z /\
    (0 <= sum_Z (map s_hits_pred scores) <= total_examples batches)%Z /\
    (0 <= sum_Z (map s_hits_adv scores) <= total_examples batches)%Z.
Proof.
  induction 1 as [|b batches Hb _ IH]; intros s.
  - exists s, []. split; [constructor|]. split; [reflexivity|].
    cbn [map sum_R sum_Z foldr total_examples]. unfold len. cbn [length].
    repeat split; try lra; lia.
  - destruct (eval_step_Ok s b Hb)
      as (s1 & r & Hr & E1 & LP1 & AP1 & LA1 & AA1 & S1 & N1 & HP1 & HA1).
    destruct (IH s1)
      as (s2 & rs & Hrs & E2 & LP2 & AP2 & LA2 & AA2 & S2 & N2 & HP2 & HA2).
    exists s2, (r :: rs). split; [now constructor|].
    split; [cbn [eval_loop]; rewrite E1; exact E2|].
    cbn [map sum_R sum_Z foldr total_examples].
    fold (total_examples batches).
    fold (sum_R (map s_loss_pred rs)). fold (sum_R (map s_loss_adv rs)).
    fold (sum_Z (map s_hits_pred rs)). fold (sum_Z (map s_hits_adv rs)).
    unfold len in *. cbn [length].
    repeat split; try lra; lia.
Qed.

Lemma total_examples_pos (batches : list eval_batch) :
  Forall (batch_ok L) batches -> batches <> [] ->
  (0 < total_examples batches)%Z.
Proof.
  intros Hok Hne.
  assert (0 <= total_examples batches)%Z as Hnn.
  { clear. induction batches as [|b bs IH]; cbn [total_examples foldr];
      [lia|]. fold (total_examples bs). unfold len. lia. }
  destruct Hok as [|b bs (_ & Hb & _) Hbs]; [contradiction|].
  cbn [total_examples foldr]. fold (total_examples bs).
  assert (0 <= total_examples bs)%Z as Hbsnn.
  { clear. induction bs as [|b' bs IH]; cbn [total_examples foldr];
      [lia|]. fold (total_examples bs). unfold len. lia. }
  unfold len. destruct (b_input_ids b); [contradiction | cbn [length]; lia].
Qed.

Lemma evaluate_on_batches (batches : list eval_batch) :
  batches <> [] -> Forall (batch_ok L) batches ->
  exists scores,
    Forall2 (scores_of predictor adversary) batches scores /\
    evaluate predictor adversary batches
      = EvalResult
          (sum_R (map s_loss_pred scores) / IZR (len batches))
          (IZR (sum_Z (map s_hits_pred scores))
             / IZR (total_examples batches))
          (sum_R (map s_loss_adv scores) / IZR (len batches))
          (IZR (sum_Z (map s_hits_adv scores))
             / IZR (total_examples batches)) /\
    (0 <= sum_Z (map s_hits_pred scores) <= total_examples batches)%Z /\
    (0 <= sum_Z (map s_hits_adv scores) <= total_examples batches)%Z.
Proof.
  intros Hne Hok.
  destruct (eval_loop_Ok batches Hok (mkEvalSums 0 0 0 0 0 0))
    as (s & scores & Hsc & E & LP & AP & LA & AA & S & N & HP & HA).
  cbn [eval_loss_pred eval_accuracy_pred eval_loss_adv eval_accuracy_adv
       nb_eval_steps nb_eval_examples] in *.
  rewrite Rplus_0_l in LP, LA. rewrite Z.add_0_l in AP, AA, S, N.
  pose proof (total_examples_pos batches Hok Hne) as Hpos.
  assert (0 < len batches)%Z as Hsteps.
  { unfold len. destruct batches; [contradiction | cbn [length]; lia]. }
  exists scores. split; [exact Hsc|]. split; [|split; assumption].
  unfold evaluate. rewrite E.
  destruct (Z.eqb_spec (nb_eval_steps s) 0) as [H0|_]; [lia|].
  destruct (Z.eqb_spec (nb_eval_examples s) 0) as [H0|_]; [lia|].
  now rewrite LP, AP, LA, AA, S, N.
Qed.

(** X23: on the batches of the evaluation set (at least one of them) the
    evaluation raises no exception and returns four averages: for each
    model the sum over the batches of its mean loss divided by the
    number of batches, and the number of examples whose first largest
    logit sits at the label divided by the number of examples; the
    adversary is run on the VP slices at the predictor's first largest
    logit.  Both accuracies lie between 0 and 1. *)
Theorem evaluation_returns_averages (batches : list eval_batch) :
  batches <> [] ->
  Forall (batch_ok L) batches ->
  exists scores,
    Forall2 (scores_of predictor adversary) batches scores /\
    evaluate predictor adversary batches
      = EvalResult
          (sum_R (map s_loss_pred scores) / IZR (len batches))
          (IZR (sum_Z (map s_hits_pred scores))
             / IZR (total_examples batches))
          (sum_R (map s_loss_adv scores) / IZR (len batches))
          (IZR (sum_Z (map s_hits_adv scores))
             / IZR (total_examples batches)) /\
    (0 <= IZR (sum_Z (map s_hits_pred scores))
            / IZR (total_examples batches) <= 1)%R /\
    (0 <= IZR (sum_Z (map s_hits_adv scores))
            / IZR (total_examples batches) <= 1)%R.
Proof.
  intros Hne Hok.
  destruct (evaluate_on_batches batches Hne Hok)
    as (scores & Hsc & E & HP & HA).
  pose proof (total_examples_pos batches Hok Hne) as Hpos.
  exists scores. split; [exact Hsc|]. split; [exact E|].
  assert (0 < IZR (total_examples batches))%R as Hn
    by (apply IZR_lt; lia).
  assert (forall k, (0 <= k <= total_examples batches)%Z ->
             (0 <= IZR k / IZR (total_examples batches) <= 1)%R) as Hfrac.
  { intros k [Hk0 Hk1]. apply IZR_le in Hk0, Hk1. split.
    - apply Rmult_le_pos; [exact Hk0|].
      apply Rlt_le, Rinv_0_lt_compat, Hn.
    - apply Rmult_le_reg_r with (IZR (total_examples batches));
        [exact Hn|].
      unfold Rdiv. rewrite Rmult_assoc, Rinv_l by lra. lra. }
  split; apply Hfrac; assumption.
Qed.

(** X24: on the batches of the evaluation set the evaluation ends with
    [ZeroDivisionError], from the divisions after the loop, exactly when
    the loop received no batch at all; no other exception is raised. *)
Theorem evaluation_divides_by_zero_iff_no_batch
    (batches : list eval_batch) :
  Forall (batch_ok L) batches ->
  (evaluate predictor adversary batches = ZeroDivisionError <->
   batches = []) /\
  forall e, evaluate predictor adversary batches <> EvalRaised e.
Proof.
  intros Hok. destruct batches as [|b batches].
  - split; [split; reflexivity | discriminate].
  - destruct (evaluate_on_batches (b :: batches) ltac:(discriminate) Hok)
      as (scores & _ & E & _).
    rewrite E. split; [split; discriminate | discriminate].
Qed.
End evaluation_properties.

Lemma toy_predictor_rows : predictor_rows toy_predictor.
Proof.
  intros ids segs mask labels. unfold toy_predictor. cbn [snd].
  split; [now rewrite length_map|].
  apply Forall_forall. intros row Hrow.
  apply list_elem_of_In, in_map_iff in Hrow as (l & <- & _). reflexivity.
Defined.

Lemma toy_adversary_rows : adversary_rows toy_adversary.
Proof.
  intros ids mask attrs. unfold toy_adversary. cbn [snd].
  split; [now rewrite length_map|].
  apply Forall_forall. intros row Hrow.
  apply list_elem_of_In, in_map_iff in Hrow as (l & <- & _). reflexivity.
Defined.

Lemma toy_batch_ok : batch_ok 2 toy_batch.
Proof.
  unfold batch_ok, toy_batch. cbn.
  split; [lia|]. split; [discriminate|].
  repeat split; repeat constructor.
Defined.

Lemma evaluation_returns_averages_witness :
  predictor_rows toy_predictor /\ adversary_rows toy_adversary /\
  [toy_batch] <> [] /\
  Forall (batch_ok 2) [toy_batch] /\
  exists scores,
    Forall2 (scores_of toy_predictor toy_adversary) [toy_batch] scores /\
    evaluate toy_predictor toy_adversary [toy_batch]
      = EvalResult
          (sum_R (map s_loss_pred scores) / IZR (len [toy_batch]))
          (IZR (sum_Z (map s_hits_pred scores))
             / IZR (total_examples [toy_batch]))
          (sum_R (map s_loss_adv scores) / IZR (len [toy_batch]))
          (IZR (sum_Z (map s_hits_adv scores))
             / IZR (total_examples [toy_batch])) /\
    (0 <= IZR (sum_Z (map s_hits_pred scores))
            / IZR (total_examples [toy_batch]) <= 1)%R /\
    (0 <= IZR (sum_Z (map s_hits_adv scores))
            / IZR (total_examples [toy_batch]) <= 1)%R.
Proof.
  assert (Forall (batch_ok 2) [toy_batch]) as Hok
    by (constructor; [exact toy_batch_ok | constructor]).
  assert ([toy_batch] <> []) as Hne by discriminate.
  split; [exact toy_predictor_rows|]. split; [exact toy_adversary_rows|].
  split; [exact Hne|]. split; [exact Hok|].
  apply (evaluation_returns_averages toy_predictor toy_adversary 2
           toy_predictor_rows toy_adversary_rows [toy_batch] Hne Hok).
Defined.

Lemma evaluation_divides_by_zero_iff_no_batch_witness :
  predictor_rows toy_predictor /\ adversary_rows toy_adversary /\
  Forall (batch_ok 2) [toy_batch] /\
  (evaluate toy_predictor toy_adversary [toy_batch] = ZeroDivisionError <->
   [toy_batch] = []) /\
  forall e, evaluate toy_predictor toy_adversary [toy_batch] <> EvalRaised e.
Proof.
  assert (Forall (batch_ok 2) [toy_batch]) as Hok
    by (constructor; [exact toy_batch_ok | constructor]).
  split; [exact toy_predictor_rows|]. split; [exact toy_adversary_rows|].
  split; [exact Hok|].
  apply (evaluation_divides_by_zero_iff_no_batch toy_predictor toy_adversary
           2 toy_predictor_rows toy_adversary_rows [toy_batch] Hok).
Defined.

(** ** From the file to the features *)

(** X25: read in training mode and then encoded, the rows of the file
    become features in file order, each with the id of its row's column
    2 and with the integers of its columns 11 and 12 as gold label and
    protected attribute. *)
Theorem features_carry_row_labels (int : string -> option Z)
    (header : list string) (rows : list (list string)) (n : nat)
    (examples : list SwagExample) (tk : tokenizer) (max_seq_length : Z)
    (features : list InputFeatures) :
  read_swag_examples int (header :: rows) true = (n, Ok examples) ->
  convert_examples_to_features examples tk max_seq_length true
    = Ok features ->
  Forall2 (fun row f =>
             row !! 2 = Some (example_id f) /\
             (exists c z, row !! 11 = Some c /\ int c = Some z /\
                          f_label f = Some z) /\
             (exists c z, row !! 12 = Some c /\ int c = Some z /\
                          f_protected_attr f = Some z))
          rows features.
Proof.
  intros Hread Henc.
  apply read_training_rows in Hread as (_ & _ & Hrows).
  apply convert_Ok_inv in Henc.
  revert features Henc.
  induction Hrows as [|row ex rows exs Hrow _ IH]; intros features Henc.
  - inversion Henc. constructor.
  - inversion Henc as [|? f ? fs Hf Hfs]; subst.
    constructor; [|now apply IH].
    destruct Hf as (Hid & Hlab & Hpa & _).
    destruct Hrow as (H2 & _ & _ & _ & _ & _ & _ & H11 & H12).
    rewrite Hid, Hlab, Hpa. auto.
Qed.

Lemma features_carry_row_labels_witness :
  exists examples features,
    read_swag_examples (fun _ => Some 1%Z) [toy_header; toy_row] true
      = (1, Ok examples) /\
    convert_examples_to_features examples toy_tokenizer 16 true
      = Ok features /\
    Forall2 (fun row f =>
               row !! 2 = Some (example_id f) /\
               (exists c z, row !! 11 = Some c /\
                            (fun _ => Some 1%Z) c = Some z /\
                            f_label f = Some z) /\
               (exists c z, row !! 12 = Some c /\
                            (fun _ => Some 1%Z) c = Some z /\
                            f_protected_attr f = Some z))
            [toy_row] features.
Proof.
  destruct (convert_examples_to_features
              [mkSwagExample "id7" "a man is on a boat" "he" "casts" "sits"
                 "waves" "jumps" (Some 1%Z) (Some 1%Z)]
              toy_tokenizer 16 true) as [fs|e] eqn:E;
    [|vm_compute in E; discriminate E].
  exists [mkSwagExample "id7" "a man is on a boat" "he" "casts" "sits"
            "waves" "jumps" (Some 1%Z) (Some 1%Z)], fs.
  split; [reflexivity|]. split; [exact E|].
  apply (features_carry_row_labels (fun _ => Some 1%Z) toy_header [toy_row]
           1 _ toy_tokenizer 16 fs eq_refl E).
Defined.
